(** * select_export_cameras: the camera selector panel of the Metashape plugin

    A shallow embedding of [src/select_export_cameras.py].  The host
    application (document, chunk, cameras), the Qt list widget and the file
    system are explicit state; every operation of [CameraSelector] and one
    poll of [CameraMonitor] is a function on that state that also reports
    whether the Python method returned or raised. *)

From stdpp Require Import gmap strings list fin_maps.

Open Scope string_scope.
Open Scope list_scope.

(** ** The host object graph (module Metashape) *)

Record Photo := { path : string }.

Record Camera := {
  label : string;
  selected : bool;
  photo : Photo
}.

Record Chunk := { cameras : list Camera }.

(** [app.document.chunk] is [None] when the project has no active chunk. *)
Record Document := {
  chunk : option Chunk;
  doc_path : string
}.

Record Application := { document : option Document }.

(** ** Python outcomes *)

Inductive Exn :=
| AttributeError            (* attribute access on None *)
| KeyError (key : string)   (* dict lookup of a missing key *)
| RuntimeError              (* use of a list item that no longer exists *)
| OSError.                  (* a file that cannot be opened *)

Inductive Outcome :=
| Returned
| Raised (e : Exn).

(** ** The Qt list widget *)

Inductive CheckState := Unchecked | PartiallyChecked | Checked.

Definition CheckState_eqb (a b : CheckState) : bool :=
  match a, b with
  | Unchecked, Unchecked | PartiallyChecked, PartiallyChecked | Checked, Checked => true
  | _, _ => false
  end.

(** One row of the [QListWidget]: its text, its checkbox and whether it is
    highlighted by the widget's native (extended) selection. *)
Record QListWidgetItem := {
  text : string;
  checkState : CheckState;
  isSelected : bool
}.

(** [CameraSelector]: [self.app], [self.list] (the rows of the list widget, in
    display order) and [self.items], the dict from camera label to item.  A
    dict value is a reference to an item of the list; it is modelled as the
    row number of that item, so that a write through the dict is seen in the
    list.  The code binds a key only to an item it has just appended and
    empties dict and list together, so a row number outside the list (an item
    that was deleted) does not arise; see [items_live]. *)
Record CameraSelector := {
  app : Application;
  list_widget : list QListWidgetItem;
  items : gmap string nat
}.

(** *** Field updates *)

Definition set_selected (b : bool) (c : Camera) : Camera :=
  {| label := label c; selected := b; photo := photo c |}.

Definition item_with_checkState (s : CheckState) (it : QListWidgetItem) : QListWidgetItem :=
  {| text := text it; checkState := s; isSelected := isSelected it |}.

Definition item_with_selected (b : bool) (it : QListWidgetItem) : QListWidgetItem :=
  {| text := text it; checkState := checkState it; isSelected := b |}.

Definition with_app (a : Application) (w : CameraSelector) : CameraSelector :=
  {| app := a; list_widget := list_widget w; items := items w |}.

Definition with_list (l : list QListWidgetItem) (w : CameraSelector) : CameraSelector :=
  {| app := app w; list_widget := l; items := items w |}.

Definition with_items (m : gmap string nat) (w : CameraSelector) : CameraSelector :=
  {| app := app w; list_widget := list_widget w; items := m |}.

(** [app.document.chunk.cameras], or [None] where one of the two attribute
    accesses hits [None] (an [AttributeError] in Python). *)
Definition chunk_cameras (a : Application) : option (list Camera) :=
  match document a with
  | None => None
  | Some d =>
      match chunk d with
      | None => None
      | Some c => Some (cameras c)
      end
  end.

(** The host after the cameras of the current chunk have been mutated. *)
Definition set_cameras (cs : list Camera) (a : Application) : Application :=
  match document a with
  | None => a
  | Some d =>
      match chunk d with
      | None => a
      | Some _ =>
          {| document := Some {| chunk := Some {| cameras := cs |};
                                 doc_path := doc_path d |} |}
      end
  end.

(** ** Operations of the list widget *)

(** The highlighted rows, top to bottom.  Qt's [selectedItems()] answers
    the same rows in the order in which they were selected;
    [update_items] only tests membership in the answer (line 190), for which
    this listing serves.  [export_cameras] writes in the order of the answer
    and uses [selectedItems_in_order] below. *)
Definition selectedItems (w : CameraSelector) : list QListWidgetItem :=
  List.filter isSelected (list_widget w).

(** The numbers of the highlighted rows, ascending, counted from [n]. *)
Fixpoint highlighted_from (n : nat) (l : list QListWidgetItem) : list nat :=
  match l with
  | [] => []
  | it :: l' =>
      if isSelected it then n :: highlighted_from (S n) l'
      else highlighted_from (S n) l'
  end.

Definition highlighted_rows (w : CameraSelector) : list nat :=
  highlighted_from 0 (list_widget w).

(** [self.list.selectedItems()] as Qt answers it.  The order in which the
    rows were selected is not part of the state of the panel: it is given by
    [selection_order], which arranges the numbers of the highlighted rows in
    the order of their selection. *)
Definition selectedItems_in_order (selection_order : list nat -> list nat)
    (w : CameraSelector) : list QListWidgetItem :=
  omap (fun i => list_widget w !! i) (selection_order (highlighted_rows w)).

(** [item.setCheckState(s)] on the item in row [i]. *)
Definition setCheckState (i : nat) (s : CheckState) (w : CameraSelector) : CameraSelector :=
  with_list (alter (item_with_checkState s) i (list_widget w)) w.

(** ** CameraSelector.update_items (lines 186-193) *)

Definition update_items (w : CameraSelector) : CameraSelector * Outcome :=
  let selected_items := text <$> selectedItems w in
  match chunk_cameras (app w) with
  | None => (w, Raised AttributeError)
  | Some cs =>
      (with_app
         (set_cameras
            ((fun camera => set_selected (bool_decide (label camera ∈ selected_items)) camera) <$> cs)
            (app w)) w,
       Returned)
  end.

(** Line 129 connects the widget's [itemSelectionChanged] signal to
    [update_items]: Qt runs the slot synchronously whenever the set of
    highlighted rows changes.  An exception raised inside a slot is printed
    by the binding and does not reach the code that changed the selection. *)
Definition itemSelectionChanged (w : CameraSelector) : CameraSelector :=
  fst (update_items w).

(** [item.setSelected(b)] on the item in row [i]: the signal is emitted only
    when the highlight of the row really changes. *)
Definition setSelected (i : nat) (b : bool) (w : CameraSelector) : CameraSelector :=
  match list_widget w !! i with
  | None => w
  | Some it =>
      if bool_decide (isSelected it = b) then w
      else itemSelectionChanged (with_list (<[i := item_with_selected b it]> (list_widget w)) w)
  end.

(** [self.list.clear()]: removes every row and the selection with them; when
    some row was highlighted this is a change of the selection, and the slot
    runs (it then finds no highlighted row). *)
Definition QListWidget_clear (w : CameraSelector) : CameraSelector :=
  let w' := with_list [] w in
  if existsb isSelected (list_widget w) then itemSelectionChanged w' else w'.

(** ** CameraSelector.update_cameras (lines 153-161) *)

(** The body of the loop: a new item is appended to the list, its checkbox is
    set and the dict entry of the label is (re)bound to it. *)
Definition add_camera_item (w : CameraSelector) (camera : Camera) : CameraSelector :=
  let i := length (list_widget w) in
  let w1 := with_list (list_widget w ++
              [{| text := label camera; checkState := Unchecked; isSelected := false |}]) w in
  let w2 := setCheckState i Unchecked w1 in
  with_items (<[label camera := i]> (items w2)) w2.

Definition update_cameras (w : CameraSelector) : CameraSelector * Outcome :=
  let w1 := QListWidget_clear w in
  let w2 := with_items ∅ w1 in
  match chunk_cameras (app w2) with
  | None => (w2, Raised AttributeError)
  | Some cs => (foldl add_camera_item w2 cs, Returned)
  end.

(** ** CameraSelector.check_selected (lines 163-168) *)

(** No slot runs inside this loop, so it is a recursion over the cameras
    read at its start. *)
Fixpoint check_selected_loop (cs : list Camera) (w : CameraSelector)
  : CameraSelector * Outcome :=
  match cs with
  | [] => (w, Returned)
  | camera :: cs' =>
      if selected camera then
        match items w !! label camera with
        | None => (w, Raised (KeyError (label camera)))
        | Some i => check_selected_loop cs' (setCheckState i Checked w)
        end
      else check_selected_loop cs' w
  end.

Definition check_selected (w : CameraSelector) : CameraSelector * Outcome :=
  match chunk_cameras (app w) with
  | None => (w, Raised AttributeError)
  | Some cs => check_selected_loop cs w
  end.

(** ** CameraSelector.clear_selected (lines 170-173) *)

Definition clear_selected (w : CameraSelector) : CameraSelector * Outcome :=
  (foldl (fun w' i => setCheckState i Unchecked w') w ((map_to_list (items w)).*2),
   Returned).

(** ** CameraSelector.select_checked (lines 175-184) *)

(** [camera.selected = b] for the [k]-th camera of the chunk. *)
Definition camera_set_selected (k : nat) (b : bool) (w : CameraSelector) : CameraSelector :=
  match chunk_cameras (app w) with
  | None => w
  | Some cs => with_app (set_cameras (alter (set_selected b) k cs) (app w)) w
  end.

(** The loop visits the camera objects by position: [item.setSelected] may
    run [update_items], which writes to the same camera objects, so every
    iteration works on the current host state.  The positions are those of
    the camera list itself, so the lookup of the camera always succeeds; the
    lookup of the row fails only for a deleted item, on which Qt's binding
    raises a RuntimeError. *)
Fixpoint select_checked_loop (ks : list nat) (w : CameraSelector)
  : CameraSelector * Outcome :=
  match ks with
  | [] => (w, Returned)
  | k :: ks' =>
      match chunk_cameras (app w) ≫= (fun cs => cs !! k) with
      | None => (w, Raised RuntimeError)
      | Some camera =>
          match items w !! label camera with
          | None => (w, Raised (KeyError (label camera)))
          | Some i =>
              match list_widget w !! i with
              | None => (w, Raised RuntimeError)
              | Some item =>
                  if CheckState_eqb (checkState item) Unchecked then
                    select_checked_loop ks'
                      (setSelected i false (camera_set_selected k false w))
                  else
                    select_checked_loop ks'
                      (setSelected i true (camera_set_selected k true w))
              end
          end
      end
  end.

Definition select_checked (w : CameraSelector) : CameraSelector * Outcome :=
  match chunk_cameras (app w) with
  | None => (w, Raised AttributeError)
  | Some cs => select_checked_loop (seq 0 (length cs)) w
  end.

(** ** CameraSelector.export_cameras (lines 195-212) *)

Definition newline : string := String (Ascii.ascii_of_nat 10) EmptyString.

(** The file system: the text content of every existing file.  [open_w] is
    what [open(p, "w")] does to it where it succeeds: the file is created or
    emptied. *)
Definition open_w (p : string) (fs : gmap string string) : gmap string string :=
  <[p := ""]> fs.

Definition file_write (p : string) (s : string) (fs : gmap string string)
  : gmap string string :=
  alter (fun content => String.append content s) p fs.

(** The line written for one camera: the f-string of line 212. *)
Definition camera_line (camera : Camera) : string :=
  String.append (label camera)
    (String.append "," (String.append (path (photo camera)) newline)).

Section ExportCameras.

(** The collaborators of the export: the label lookup imported from
    [abyss.robotics.metashape.utilities], which receives whatever
    [document.chunk] holds and answers a camera or [None]; pathlib's
    computation of the proposed file name (the document's directory joined
    with [cameras.csv]); the save-file prompt, which maps the proposal
    to the path the user chose, empty when the prompt is cancelled; the
    order in which the list answers its highlighted rows; and whether the
    operating system lets the chosen path be opened for writing. *)
Variable get_camera : option Chunk -> string -> option Camera.
Variable default_export_path : string -> string.
Variable getSaveFileName : string -> string.
Variable selection_order : list nat -> list nat.
Variable open_succeeds : string -> bool.

(** The comprehension of lines 198-201 evaluates [self.app.document.chunk]
    once per selected label. *)
Fixpoint resolve_cameras (a : Application) (camera_labels : list string)
  : Exn + list (option Camera) :=
  match camera_labels with
  | [] => inr []
  | camera_label :: rest =>
      match document a with
      | None => inl AttributeError
      | Some d =>
          match resolve_cameras a rest with
          | inl e => inl e
          | inr cs => inr (get_camera (chunk d) camera_label :: cs)
          end
      end
  end.

Fixpoint write_cameras (export_path : string) (cs : list (option Camera))
    (fs : gmap string string) : gmap string string :=
  match cs with
  | [] => fs
  | None :: rest => write_cameras export_path rest fs
  | Some camera :: rest =>
      write_cameras export_path rest (file_write export_path (camera_line camera) fs)
  end.

(** [Metashape.app] of line 202 is the application the panel was built
    with ([add_to_dock] passes it as [app]).  The file is opened for writing,
    which empties or creates it, and each resolved camera appends its line;
    where the file cannot be opened, [open] raises an OSError before anything
    is written. *)
Definition export_cameras (w : CameraSelector) (fs : gmap string string)
  : gmap string string * Outcome :=
  let camera_labels := text <$> selectedItems_in_order selection_order w in
  match resolve_cameras (app w) camera_labels with
  | inl e => (fs, Raised e)
  | inr cs =>
      match document (app w) with
      | None => (fs, Raised AttributeError)
      | Some d =>
          let export_path := getSaveFileName (default_export_path (doc_path d)) in
          if bool_decide (export_path = "") then (fs, Returned)
          else if open_succeeds export_path then
            (write_cameras export_path cs (open_w export_path fs), Returned)
          else (fs, Raised OSError)
      end
  end.

End ExportCameras.

(** ** CameraMonitor (lines 36-67) *)

(** [self.camera_labels] starts as [None]; [self.stop] ends the loop. *)
Record CameraMonitor := {
  camera_labels : option (list string);
  stop : bool
}.

Definition with_camera_labels (ls : list string) (m : CameraMonitor) : CameraMonitor :=
  {| camera_labels := Some ls; stop := stop m |}.

(** One pass through the body of the [while] loop, against the host as it is
    when the sleep ends.  The boolean tells whether [camera_signal] was
    emitted.  [not self.camera_labels] holds for [None] and for the empty
    list. *)
Definition monitor_poll (a : Application) (m : CameraMonitor) : CameraMonitor * bool :=
  match document a with
  | None => (m, false)
  | Some d =>
      match chunk d with
      | None => (m, false)
      | Some c =>
          let labels := label <$> cameras c in
          match camera_labels m with
          | None | Some [] => (with_camera_labels labels m, false)
          | Some previous =>
              if bool_decide (labels = previous) then (m, false)
              else (with_camera_labels labels m, true)
          end
      end
  end.

(** The loop itself, run against the successive states of the host, one per
    second; it returns the monitor and the emissions, oldest first. *)
Fixpoint monitor_cameras (hosts : list Application) (m : CameraMonitor)
  : CameraMonitor * list bool :=
  match hosts with
  | [] => (m, [])
  | a :: rest =>
      if stop m then (m, [])
      else
        let '(m1, emitted) := monitor_poll a m in
        let '(m2, later) := monitor_cameras rest m1 in
        (m2, emitted :: later)
  end.

(** * Specification vocabulary *)

(** ** The host *)

(** The labels of the cameras of the open chunk, in order. *)
Definition chunk_labels (a : Application) : option (list string) :=
  fmap (M:=list) label <$> chunk_cameras a.

(** The labels of the cameras at the positions [ks]. *)
Definition labels_at (cs : list Camera) (ks : list nat) : list string :=
  omap (fun k => label <$> cs !! k) ks.

(** ** The panel *)

(** A freshly built list item, as [update_cameras] leaves it. *)
Definition unchecked_item (l : string) : QListWidgetItem :=
  {| text := l; checkState := Unchecked; isSelected := false |}.

(** A checkbox counts as checked when it is not [Unchecked]: the test of
    line 179. *)
Definition is_checked (it : QListWidgetItem) : bool :=
  negb (CheckState_eqb (checkState it) Unchecked).

(** The item [self.items[l]] refers to. *)
Definition entry (w : CameraSelector) (l : string) : option QListWidgetItem :=
  items w !! l ≫= (fun i => list_widget w !! i).

(** The rows that are the value of some key of the entry map. *)
Definition is_entry (w : CameraSelector) (i : nat) : Prop :=
  exists l, items w !! l = Some i.

(** Every dict value refers to an existing row, the one that carries the
    key as its text: what [self.items[camera.label] = item] establishes. *)
Definition items_live (w : CameraSelector) : Prop :=
  forall l i, items w !! l = Some i ->
    exists it, list_widget w !! i = Some it /\ text it = l.

(** Every row is the dict entry of its own text: no two rows share a text
    and none is missing from the dict. *)
Definition rows_keyed (w : CameraSelector) : Prop :=
  forall i it, list_widget w !! i = Some it -> items w !! text it = Some i.

(** The panel holds one entry per label: the state Refresh builds from a
    chunk whose cameras carry distinct labels. *)
Definition one_entry_per_label (w : CameraSelector) : Prop :=
  items_live w /\ rows_keyed w.

(** The entry map covers the chunk: every camera's label is a key. *)
Definition covers (w : CameraSelector) (cs : list Camera) : Prop :=
  forall c, c ∈ cs -> is_Some (items w !! label c).

(** [alter f] applied at each of the rows [idxs], first to last. *)
Definition alter_each {A} (f : A -> A) (idxs : list nat) (l : list A) : list A :=
  foldl (fun l' i => alter f i l') l idxs.

(** ** Pull *)

(** The rows [check_selected] reaches: the entries of the cameras the host
    marks selected. *)
Definition pulled (w : CameraSelector) (cs : list Camera) (i : nat) : Prop :=
  exists c, c ∈ cs /\ selected c = true /\ items w !! label c = Some i.

(** The rows written by [check_selected], in the order of the cameras. *)
Definition pull_rows (m : gmap string nat) (cs : list Camera) : list nat :=
  omap (fun c => if selected c then m !! label c else None) cs.

(** ** Push *)

(** A row whose text is one of the labels [D] has its highlight set to its
    checkbox; any other row is left alone. *)
Definition mirror_checked (D : list string) (it : QListWidgetItem) : QListWidgetItem :=
  if bool_decide (text it ∈ D) then item_with_selected (is_checked it) it else it.

(** The state of [select_checked] after the cameras at the positions [ks]
    have been visited, relative to the state [w0] with cameras [cs0] it
    started from. *)
Definition push_inv (w0 : CameraSelector) (cs0 : list Camera) (ks : list nat)
    (w : CameraSelector) : Prop :=
  items w = items w0 /\
  list_widget w = mirror_checked (labels_at cs0 ks) <$> list_widget w0 /\
  exists cs,
    app w = set_cameras cs (app w0) /\
    label <$> cs = label <$> cs0 /\
    photo <$> cs = photo <$> cs0 /\
    forall k c it, k ∈ ks -> cs !! k = Some c -> entry w0 (label c) = Some it ->
      selected c = is_checked it.


(** ** Export *)

(** The text of a file made of the given lines, in order. *)
Definition file_content (lines : list string) : string :=
  foldr String.append "" lines.

(** The cameras the lookup resolves, in the order of the labels. *)
Definition resolved (get_camera : option Chunk -> string -> option Camera)
    (ch : option Chunk) (camera_labels : list string) : list Camera :=
  omap (get_camera ch) camera_labels.

(** A lookup by label, as one instance of the collaborator. *)
Definition find_camera (ch : option Chunk) (l : string) : option Camera :=
  match ch with
  | None => None
  | Some c => List.find (fun camera => bool_decide (label camera = l)) (cameras c)
  end.

(** * Sample states *)

Definition cam (l : string) (s : bool) (p : string) : Camera :=
  {| label := l; selected := s; photo := {| path := p |} |}.

(** A host with an open document whose chunk holds the cameras [cs]. *)
Definition host_of (cs : list Camera) : Application :=
  {| document := Some {| chunk := Some {| cameras := cs |}; doc_path := "/proj/p.psx" |} |}.

(** A host with an open document and no active chunk. *)
Definition no_chunk_host : Application :=
  {| document := Some {| chunk := None; doc_path := "/proj/p.psx" |} |}.

Definition empty_selector (a : Application) : CameraSelector :=
  {| app := a; list_widget := []; items := ∅ |}.

Definition two_cameras : list Camera :=
  [cam "A" true "/p/a.jpg"; cam "B" false "/p/b.jpg"].

(** The panel right after a refresh on [two_cameras]. *)
Definition fresh_selector : CameraSelector :=
  {| app := host_of two_cameras;
     list_widget := [unchecked_item "A"; unchecked_item "B"];
     items := {[ "A" := 0; "B" := 1 ]} |}.

(** Rows A and B both highlighted, while the chunk holds camera A only. *)
Definition selected_selector : CameraSelector :=
  {| app := host_of [cam "A" true "/p/a.jpg"];
     list_widget := [ {| text := "A"; checkState := Unchecked; isSelected := true |};
                      {| text := "B"; checkState := Unchecked; isSelected := true |} ];
     items := {[ "A" := 0; "B" := 1 ]} |}.


(** The panel of [fresh_selector] after the user ticked row B: the host
    selects A, the panel has B checked. *)
Definition ticked_selector : CameraSelector :=
  {| app := host_of two_cameras;
     list_widget := [ unchecked_item "A";
                      {| text := "B"; checkState := Checked; isSelected := false |} ];
     items := {[ "A" := 0; "B" := 1 ]} |}.

(** A panel with an entry left from a camera that is no longer in the
    chunk: refreshed on cameras A and B, A was then checked and removed. *)
Definition stale_selector : CameraSelector :=
  {| app := host_of [cam "B" false "/p/b.jpg"];
     list_widget := [ {| text := "A"; checkState := Checked; isSelected := false |};
                      unchecked_item "B" ];
     items := {[ "A" := 0; "B" := 1 ]} |}.

(** A panel whose list holds two rows with the same text (the chunk held
    two cameras labelled A when it was refreshed), both highlighted. *)
Definition shared_label_selector : CameraSelector :=
  {| app := host_of [cam "A" false "/p/a1.jpg"; cam "A" false "/p/a2.jpg"];
     list_widget := [ {| text := "A"; checkState := Unchecked; isSelected := true |};
                      {| text := "A"; checkState := Unchecked; isSelected := true |} ];
     items := {[ "A" := 1 ]} |}.


(** * The rest of the module *)

(** ** CameraMonitor.__init__ (lines 41-50) *)

(** A new monitor has observed nothing and is not stopped. *)
Definition CameraMonitor_init : CameraMonitor :=
  {| camera_labels := None; stop := false |}.

(** ** find_main_window (lines 25-33) *)

(** A dock widget holding the camera selector (class [CameraSelectorDock]). *)
Record CameraSelectorDock := {
  windowTitle : string;
  widget : CameraSelector;
  isFloating : bool
}.

Inductive DockWidgetArea :=
| LeftDockWidgetArea | RightDockWidgetArea | TopDockWidgetArea | BottomDockWidgetArea.

(** A main window with the dock widgets attached to it, oldest first. *)
Record QMainWindow := { dockWidgets : list (DockWidgetArea * CameraSelectorDock) }.

(** A top-level widget is a main window or some other widget. *)
Inductive QWidget :=
| MainWindow (mw : QMainWindow)
| OtherWidget (objectName : string).

(** The loop over [app.topLevelWidgets()]: the first widget that is a
    [QMainWindow], as its position in the list, or [None]. *)
Fixpoint find_main_window (topLevelWidgets : list QWidget) : option nat :=
  match topLevelWidgets with
  | [] => None
  | MainWindow _ :: _ => Some 0
  | OtherWidget _ :: rest => S <$> find_main_window rest
  end.

(** ** CameraSelector.__init__ (lines 84-103) *)

(** The constructor stores the application, creates an empty list and an
    empty dict, lays out the buttons and refreshes the list. *)
Definition CameraSelector_init (a : Application) : CameraSelector * Outcome :=
  update_cameras {| app := a; list_widget := []; items := ∅ |}.

(** ** CameraSelectorDock.__init__ (lines 218-227) *)

Definition CameraSelectorDock_init (a : Application) : Exn + CameraSelectorDock :=
  match CameraSelector_init a with
  | (_, Raised e) => inl e
  | (w, Returned) =>
      inr {| windowTitle := "Select Cameras"; widget := w; isFloating := false |}
  end.

(** ** add_to_dock (lines 234-239) *)

Definition addDockWidget (area : DockWidgetArea) (dock : CameraSelectorDock)
    (wd : QWidget) : QWidget :=
  match wd with
  | MainWindow mw => MainWindow {| dockWidgets := dockWidgets mw ++ [(area, dock)] |}
  | OtherWidget n => OtherWidget n
  end.

(** The menu entry: it answers the top-level widgets after the dock was
    attached, or the exception that ended it.  The dock is built before the
    main window is used, so a missing chunk is met before a missing window. *)
Definition add_to_dock (a : Application) (topLevelWidgets : list QWidget)
  : Exn + list QWidget :=
  let main_window := find_main_window topLevelWidgets in
  match CameraSelectorDock_init a with
  | inl e => inl e
  | inr camera_selector_dock =>
      match main_window with
      | None => inl AttributeError
      | Some i =>
          inr (alter (addDockWidget LeftDockWidgetArea camera_selector_dock) i
                 topLevelWidgets)
      end
  end.

(** ** The panel at work: CameraSelector.initialise_widget (lines 105-132) *)

(** What the callbacks act on: the panel and the files. *)
Record World := {
  panel : CameraSelector;
  files : gmap string string
}.

Definition on_panel (method : CameraSelector -> CameraSelector * Outcome) (x : World)
  : World * Outcome :=
  ({| panel := fst (method (panel x)); files := files x |}, snd (method (panel x))).

Section Buttons.

Variable get_camera : option Chunk -> string -> option Camera.
Variable default_export_path : string -> string.
Variable getSaveFileName : string -> string.
Variable selection_order : list nat -> list nat.
Variable open_succeeds : string -> bool.

Definition on_files (x : World) : World * Outcome :=
  ({| panel := panel x;
      files := fst (export_cameras get_camera default_export_path getSaveFileName
                      selection_order open_succeeds (panel x) (files x)) |},
   snd (export_cameras get_camera default_export_path getSaveFileName
          selection_order open_succeeds (panel x) (files x))).

(** The table of lines 118-124: the text of each button and the method its
    [clicked] signal is connected to. *)
Definition buttons : list (string * (World -> World * Outcome)) :=
  [ ("Add Selected", on_panel check_selected);
    ("Select Checked", on_panel select_checked);
    ("Clear", on_panel clear_selected);
    ("Update Cameras", on_panel update_cameras);
    ("Export", on_files) ].

(** A click on the button with the given text runs its callback; an
    exception of the callback is printed and the event loop goes on. *)
Definition click (button : string) (x : World) : World :=
  match List.find (fun b => bool_decide (fst b = button)) buttons with
  | Some (_, callback) => fst (callback x)
  | None => x
  end.

(** The user changes the highlight so that exactly the rows [rows] are
    highlighted; the list emits [itemSelectionChanged] once if that is a
    change. *)
Definition user_selects (rows : list nat) (w : CameraSelector) : CameraSelector :=
  let l := imap (fun i it => item_with_selected (bool_decide (i ∈ rows)) it)
             (list_widget w) in
  if bool_decide (isSelected <$> l = isSelected <$> list_widget w) then w
  else itemSelectionChanged (with_list l w).

(** What happens to the panel between two idle moments of the event loop. *)
Inductive Event :=
| Click (button : string)             (* a button of the panel is clicked *)
| UserChecks (i : nat) (s : CheckState) (* the checkbox of row [i] is toggled *)
| UserSelects (rows : list nat)       (* the highlight is changed in the list *)
| HostBecomes (a : Application).      (* the project is edited in the host *)

Definition handle (e : Event) (x : World) : World :=
  match e with
  | Click button => click button x
  | UserChecks i s => {| panel := setCheckState i s (panel x); files := files x |}
  | UserSelects rows => {| panel := user_selects rows (panel x); files := files x |}
  | HostBecomes a => {| panel := with_app a (panel x); files := files x |}
  end.

Definition run (events : list Event) (x : World) : World :=
  foldl (fun x' e => handle e x') x events.

End Buttons.

(** * More vocabulary *)

(** The host with every selection flag erased: two hosts with the same
    image differ in selection flags only. *)
Definition without_selection (a : Application) : Application :=
  match chunk_cameras a with
  | None => a
  | Some cs => set_cameras (set_selected false <$> cs) a
  end.

(** The camera labels of the host are pairwise distinct (or no chunk is
    open). *)
Definition distinct_labels (a : Application) : Prop :=
  forall ls, chunk_labels a = Some ls -> NoDup ls.

(** What the monitor emits on a series of label sequences, each compared
    with the one before. *)
Fixpoint label_changes (previous : option (list string)) (polls : list (list string))
  : list bool :=
  match polls with
  | [] => []
  | ls :: rest =>
      match previous with
      | None => false
      | Some p => bool_decide (ls <> p)
      end :: label_changes (Some ls) rest
  end.

(** One session with the panel: a camera is renamed in the host, the list is
    refreshed, a row is ticked and pushed to the host. *)
Definition sample_session : list Event :=
  [ HostBecomes (host_of [cam "A" true "/p/a.jpg"; cam "C" false "/p/b.jpg"]);
    Click "Update Cameras";
    UserChecks 1 Checked;
    Click "Select Checked";
    UserSelects [0; 1];
    Click "Add Selected" ].

(** * Properties *)

(** ** The host accessors *)

Lemma chunk_cameras_set_cameras a cs cs' :
  chunk_cameras a = Some cs -> chunk_cameras (set_cameras cs' a) = Some cs'.
Proof.
  unfold chunk_cameras, set_cameras.
  destruct (document a) as [d|]; [|done].
  destruct (chunk d); [|done]. done.
Qed.

Lemma chunk_cameras_None_set_cameras a cs' :
  chunk_cameras a = None -> set_cameras cs' a = a.
Proof.
  unfold chunk_cameras, set_cameras.
  destruct (document a) as [d|]; [|done].
  destruct (chunk d); [|done]. done.
Qed.

Lemma set_cameras_id a cs : chunk_cameras a = Some cs -> set_cameras cs a = a.
Proof.
  unfold chunk_cameras, set_cameras. destruct a as [[[[c|] p]|]]; simpl; try done.
  destruct c as [cs0]. simpl. by intros [= ->].
Qed.

Lemma set_cameras_twice a cs1 cs2 :
  set_cameras cs2 (set_cameras cs1 a) = set_cameras cs2 a.
Proof.
  unfold set_cameras. destruct a as [[[[c|] p]|]]; simpl; done.
Qed.

Lemma update_items_open w cs :
  chunk_cameras (app w) = Some cs ->
  update_items w =
    (with_app (set_cameras
       ((fun camera =>
           set_selected (bool_decide (label camera ∈ text <$> selectedItems w)) camera) <$> cs)
       (app w)) w, Returned).
Proof. intros H. unfold update_items. by rewrite H. Qed.

Lemma update_items_closed w :
  chunk_cameras (app w) = None -> update_items w = (w, Raised AttributeError).
Proof. intros H. unfold update_items. by rewrite H. Qed.

(** The slot never touches the widget. *)
Lemma itemSelectionChanged_list w : list_widget (itemSelectionChanged w) = list_widget w.
Proof.
  unfold itemSelectionChanged, update_items. by destruct (chunk_cameras (app w)).
Qed.

Lemma itemSelectionChanged_items w : items (itemSelectionChanged w) = items w.
Proof.
  unfold itemSelectionChanged, update_items. by destruct (chunk_cameras (app w)).
Qed.

Lemma itemSelectionChanged_labels w :
  fmap (M:=list) label <$> chunk_cameras (app (itemSelectionChanged w))
  = fmap (M:=list) label <$> chunk_cameras (app w).
Proof.
  unfold itemSelectionChanged, update_items.
  destruct (chunk_cameras (app w)) as [cs|] eqn:E; simpl; [|by rewrite E].
  rewrite (chunk_cameras_set_cameras _ cs) by done. simpl. f_equal.
  rewrite <- list_fmap_compose. by apply list_fmap_ext.
Qed.


(** ** The monitor *)

Lemma monitor_poll_closed a m : chunk_labels a = None -> monitor_poll a m = (m, false).
Proof.
  unfold chunk_labels, chunk_cameras, monitor_poll.
  destruct (document a) as [d|]; [|done]. by destruct (chunk d).
Qed.

Lemma monitor_poll_open a m ls :
  chunk_labels a = Some ls ->
  monitor_poll a m =
    match camera_labels m with
    | None | Some [] => (with_camera_labels ls m, false)
    | Some previous =>
        if bool_decide (ls = previous) then (m, false)
        else (with_camera_labels ls m, true)
    end.
Proof.
  unfold chunk_labels, chunk_cameras, monitor_poll.
  destruct (document a) as [d|]; [|done]. destruct (chunk d); [|done].
  simpl. by intros [= <-].
Qed.

(** C2, as stated, fails: after an empty label sequence was observed, a poll
    that reads a different, non-empty sequence emits nothing; the same holds
    for the first poll, when nothing was observed yet. *)
Lemma monitor_poll_signal_iff_differs_counterexample :
  let a := host_of [cam "A" false "/p/a.jpg"] in
  let seen_empty := {| camera_labels := Some []; stop := false |} in
  let seen_nothing := {| camera_labels := None; stop := false |} in
  chunk_labels a = Some ["A"] /\
  ~ (snd (monitor_poll a seen_empty) = true <-> Some ["A"] <> camera_labels seen_empty) /\
  ~ (snd (monitor_poll a seen_nothing) = true <-> Some ["A"] <> camera_labels seen_nothing).
Proof.
  simpl. split; [reflexivity|].
  split; intros [_ H]; cbn in H; discriminate H; discriminate.
Qed.

(** C2, amended: one poll with no document or no chunk emits nothing and
    keeps the observed sequence; with a chunk open, the first poll records the
    sequence it reads without a signal, and a poll that follows a non-empty
    observed sequence emits the signal if and only if the sequence it reads
    differs from that one, and in both cases holds the sequence read
    afterwards. *)
Theorem monitor_poll_signal_iff_differs (a : Application) (m : CameraMonitor) :
  (chunk_labels a = None -> monitor_poll a m = (m, false)) /\
  (forall ls, chunk_labels a = Some ls ->
     (camera_labels m = None ->
        monitor_poll a m = (with_camera_labels ls m, false)) /\
     (forall previous, camera_labels m = Some previous -> previous <> [] ->
        (snd (monitor_poll a m) = true <-> ls <> previous) /\
        camera_labels (fst (monitor_poll a m)) = Some ls /\
        stop (fst (monitor_poll a m)) = stop m)).
Proof.
  split; [apply monitor_poll_closed|].
  intros ls Hls. rewrite (monitor_poll_open _ _ _ Hls).
  split.
  - by intros ->.
  - intros previous Hp Hne. rewrite Hp. destruct previous as [|p previous]; [done|].
    case_bool_decide as E; simpl.
    + subst ls. split; [|done]. split; [discriminate|intros H; by destruct H].
    + split; [|done]. split; [by intros _|done].
Qed.

Lemma monitor_poll_signal_iff_differs_witness :
  let a := host_of [cam "A" false "/p/a.jpg"; cam "B" false "/p/b.jpg"] in
  let m := {| camera_labels := Some ["A"]; stop := false |} in
  snd (monitor_poll a m) = true /\
  camera_labels (fst (monitor_poll a m)) = Some ["A"; "B"].
Proof.
  intros a m.
  destruct (monitor_poll_signal_iff_differs a m) as [_ H].
  destruct (H ["A"; "B"] eq_refl) as [_ H2].
  destruct (H2 ["A"] eq_refl ltac:(discriminate)) as [[_ Hemit] [Hrec _]].
  split; [apply Hemit; discriminate|exact Hrec].
Defined.

(** ** Refresh: update_cameras *)

Lemma QListWidget_clear_list w : list_widget (QListWidget_clear w) = [].
Proof.
  unfold QListWidget_clear. destruct (existsb _ _); [|done].
  by rewrite itemSelectionChanged_list.
Qed.

Lemma QListWidget_clear_items w : items (QListWidget_clear w) = items w.
Proof.
  unfold QListWidget_clear. destruct (existsb _ _); [|done].
  by rewrite itemSelectionChanged_items.
Qed.

Lemma QListWidget_clear_labels w :
  chunk_labels (app (QListWidget_clear w)) = chunk_labels (app w).
Proof.
  unfold QListWidget_clear, chunk_labels. destruct (existsb _ _); [|done].
  by rewrite itemSelectionChanged_labels.
Qed.

Lemma QListWidget_clear_closed w :
  chunk_cameras (app w) = None -> QListWidget_clear w = with_list [] w.
Proof.
  intros H. unfold QListWidget_clear. destruct (existsb _ _); [|done].
  unfold itemSelectionChanged. by rewrite update_items_closed.
Qed.

Lemma add_camera_item_eq w c :
  add_camera_item w c =
    {| app := app w;
       list_widget := list_widget w ++ [unchecked_item (label c)];
       items := <[label c := length (list_widget w)]> (items w) |}.
Proof.
  unfold add_camera_item, setCheckState, with_items, with_list. simpl.
  f_equal. rewrite alter_app_r_alt by lia.
  by replace (length (list_widget w) - length (list_widget w)) with 0 by lia.
Qed.

Lemma foldl_add_camera_item_app cs w : app (foldl add_camera_item w cs) = app w.
Proof.
  revert w. induction cs as [|c cs IH]; intros w; simpl; [done|].
  by rewrite IH, add_camera_item_eq.
Qed.

Lemma foldl_add_camera_item_list cs w :
  list_widget (foldl add_camera_item w cs)
  = list_widget w ++ (unchecked_item <$> (label <$> cs)).
Proof.
  revert w. induction cs as [|c cs IH]; intros w; simpl.
  - by rewrite app_nil_r.
  - rewrite IH, add_camera_item_eq. simpl. by rewrite <- app_assoc.
Qed.

Lemma foldl_add_camera_item_dom cs w l :
  is_Some (items (foldl add_camera_item w cs) !! l)
  <-> is_Some (items w !! l) \/ l ∈ label <$> cs.
Proof.
  revert w. induction cs as [|c cs IH]; intros w; simpl.
  - split; [by left|]. intros [H|H]; [done|]. by apply elem_of_nil in H.
  - rewrite IH, add_camera_item_eq. simpl. rewrite lookup_insert_is_Some.
    rewrite elem_of_cons. destruct (decide (label c = l)) as [E|E]; [subst; tauto|].
    intuition congruence.
Qed.

Lemma add_camera_item_live w c : items_live w -> items_live (add_camera_item w c).
Proof.
  intros Hl l i. rewrite add_camera_item_eq. simpl.
  rewrite lookup_insert. case_decide as E.
  - intros [= <-]. exists (unchecked_item (label c)). split; [|by subst].
    by rewrite lookup_app_r, Nat.sub_diag.
  - intros Hi. destruct (Hl _ _ Hi) as (it & Hit & Ht).
    exists it. split; [|done]. by apply lookup_app_l_Some.
Qed.

Lemma add_camera_item_keyed w c :
  rows_keyed w -> items w !! label c = None -> rows_keyed (add_camera_item w c).
Proof.
  intros Hk Hfresh i it. rewrite add_camera_item_eq. simpl.
  intros Hi. apply lookup_app_Some in Hi as [Hi|[Hlen Hi]].
  - rewrite lookup_insert_ne; [by apply Hk|].
    intros E. apply Hk in Hi. congruence.
  - apply list_lookup_singleton_Some in Hi as [Hz <-]. simpl.
    replace i with (length (list_widget w)) by lia. apply lookup_insert_eq.
Qed.

Lemma foldl_add_camera_item_live cs w :
  items_live w -> items_live (foldl add_camera_item w cs).
Proof.
  revert w. induction cs as [|c cs IH]; intros w Hl; simpl; [done|].
  by apply IH, add_camera_item_live.
Qed.

Lemma foldl_add_camera_item_keyed cs w :
  rows_keyed w -> NoDup (label <$> cs) ->
  (forall c, c ∈ cs -> items w !! label c = None) ->
  rows_keyed (foldl add_camera_item w cs).
Proof.
  revert w. induction cs as [|c cs IH]; intros w Hk Hnd Hfresh; simpl; [done|].
  rewrite fmap_cons in Hnd. apply NoDup_cons in Hnd as [Hnotin Hnd].
  apply IH; [|done|].
  - apply add_camera_item_keyed; [done|]. apply Hfresh. by left.
  - intros c' Hc'. rewrite add_camera_item_eq. simpl.
    rewrite lookup_insert_ne; [apply Hfresh; by right|].
    intros E. apply Hnotin. rewrite E. by apply list_elem_of_fmap_2.
Qed.

Lemma update_cameras_closed w :
  chunk_cameras (app w) = None ->
  update_cameras w = (with_items ∅ (with_list [] w), Raised AttributeError).
Proof.
  intros H. unfold update_cameras. rewrite QListWidget_clear_closed by done.
  simpl. by rewrite H.
Qed.

Lemma update_cameras_open w ls :
  chunk_labels (app w) = Some ls ->
  exists cs, label <$> cs = ls /\
    update_cameras w
    = (foldl add_camera_item (with_items ∅ (QListWidget_clear w)) cs, Returned).
Proof.
  intros H. unfold update_cameras. simpl.
  rewrite <- QListWidget_clear_labels in H. unfold chunk_labels in H.
  destruct (chunk_cameras (app (QListWidget_clear w))) as [cs|]; [|done].
  exists cs. split; [|done]. by injection H.
Qed.

(** C1: with no document or no chunk open, Refresh does not return quietly:
    after it has cleared the list and the entry map, reading the cameras of
    the missing chunk raises an AttributeError, which reaches the caller. *)
Theorem update_cameras_without_chunk_raises (w : CameraSelector) :
  chunk_cameras (app w) = None ->
  update_cameras w = (with_items ∅ (with_list [] w), Raised AttributeError).
Proof. apply update_cameras_closed. Qed.

Lemma update_cameras_without_chunk_raises_witness :
  update_cameras (empty_selector no_chunk_host)
  = (empty_selector no_chunk_host, Raised AttributeError).
Proof.
  exact (update_cameras_without_chunk_raises (empty_selector no_chunk_host) eq_refl).
Defined.

Lemma update_cameras_keyed w cs w' :
  chunk_cameras (app w) = Some cs -> NoDup (label <$> cs) ->
  update_cameras w = (w', Returned) -> items_live w' /\ rows_keyed w'.
Proof.
  intros Hcs Hnd Hrun.
  destruct (update_cameras_open w (label <$> cs)) as (cs1 & Hlab & Heq).
  { unfold chunk_labels. by rewrite Hcs. }
  rewrite Heq in Hrun. injection Hrun as <-. split.
  - apply foldl_add_camera_item_live. intros l i. simpl. by rewrite lookup_empty.
  - apply foldl_add_camera_item_keyed.
    + intros i it. simpl. by rewrite QListWidget_clear_list.
    + by rewrite Hlab.
    + intros c _. simpl. apply lookup_empty.
Qed.

(** C7: with a chunk of N cameras open, Refresh returns and leaves a list of
    exactly N rows, the i-th carrying the label of the i-th camera, unchecked
    (and not highlighted); the entry map has exactly the cameras' labels as
    keys, each bound to a row with that text; with no camera, list and map
    are empty. *)
Theorem update_cameras_lists_cameras (w : CameraSelector) (cs : list Camera) :
  chunk_cameras (app w) = Some cs ->
  exists w',
    update_cameras w = (w', Returned) /\
    list_widget w' = unchecked_item <$> (label <$> cs) /\
    length (list_widget w') = length cs /\
    (forall i it, list_widget w' !! i = Some it ->
       checkState it = Unchecked /\ label <$> cs !! i = Some (text it)) /\
    (forall l, is_Some (items w' !! l) <-> l ∈ label <$> cs) /\
    items_live w' /\
    (cs = [] -> list_widget w' = [] /\ items w' = ∅).
Proof.
  intros Hcs.
  destruct (update_cameras_open w (label <$> cs)) as (cs1 & Hlab & Heq).
  { unfold chunk_labels. by rewrite Hcs. }
  eexists. split; [exact Heq|].
  assert (Hlist : list_widget (foldl add_camera_item (with_items ∅ (QListWidget_clear w)) cs1)
                  = unchecked_item <$> (label <$> cs)).
  { rewrite foldl_add_camera_item_list. simpl.
    by rewrite QListWidget_clear_list, Hlab. }
  split; [exact Hlist|]. split; [by rewrite Hlist, !length_fmap|].
  split; [|split; [|split]].
  - intros i it. rewrite Hlist, !list_lookup_fmap.
    destruct (cs !! i) as [c|]; simpl; [|done]. by intros [= <-].
  - intros l. rewrite foldl_add_camera_item_dom. simpl. rewrite lookup_empty, Hlab.
    split; [intros [[? [=]]|H]; done|by right].
  - apply foldl_add_camera_item_live. intros l i. simpl. by rewrite lookup_empty.
  - intros ->. apply fmap_nil_inv in Hlab as ->. simpl.
    by rewrite QListWidget_clear_list.
Qed.

Lemma update_cameras_lists_cameras_witness :
  exists w',
    update_cameras (empty_selector (host_of [cam "A" true "/p/a.jpg"; cam "B" false "/p/b.jpg"]))
    = (w', Returned) /\
    list_widget w' = [unchecked_item "A"; unchecked_item "B"].
Proof.
  destruct (update_cameras_lists_cameras
              (empty_selector (host_of [cam "A" true "/p/a.jpg"; cam "B" false "/p/b.jpg"]))
              [cam "A" true "/p/a.jpg"; cam "B" false "/p/b.jpg"] eq_refl)
    as (w' & Hrun & Hlist & _).
  exists w'. split; [exact Hrun|exact Hlist].
Defined.

(** ** Writing the same field of several rows *)

Lemma alter_each_length {A} (f : A -> A) idxs (l : list A) :
  length (alter_each f idxs l) = length l.
Proof.
  revert l. induction idxs as [|i idxs IH]; intros l; simpl; [done|].
  unfold alter_each in *. simpl. by rewrite IH, length_alter.
Qed.

Lemma alter_each_lookup {A} (f : A -> A) idxs (l : list A) i :
  (forall x, f (f x) = f x) ->
  alter_each f idxs l !! i = if decide (i ∈ idxs) then f <$> l !! i else l !! i.
Proof.
  intros Hf. revert l. induction idxs as [|j idxs IH]; intros l.
  - simpl. destruct (decide (i ∈ [])) as [E|E]; [inversion E|done].
  - unfold alter_each in *. simpl. rewrite IH.
    destruct (decide (j = i)) as [->|Hne].
    + rewrite list_lookup_alter_eq.
      rewrite (decide_True (P := i ∈ i :: idxs)) by left.
      case_decide; [|done]. destruct (l !! i); simpl; [|done]. by rewrite Hf.
    + rewrite list_lookup_alter_ne by done.
      destruct (decide (i ∈ idxs)) as [Hin|Hnin].
      * by rewrite (decide_True (P := i ∈ j :: idxs)) by (by right).
      * rewrite (decide_False (P := i ∈ j :: idxs)); [done|].
        intros [E|E]%elem_of_cons; [congruence|done].
Qed.

Lemma foldl_setCheckState s idxs w :
  foldl (fun w' i => setCheckState i s w') w idxs
  = with_list (alter_each (item_with_checkState s) idxs (list_widget w)) w.
Proof.
  revert w. induction idxs as [|i idxs IH]; intros w; simpl.
  - by destruct w.
  - by rewrite IH.
Qed.

(** ** Selection-changed reaction: update_items *)

Lemma selected_text_iff w l :
  l ∈ text <$> selectedItems w
  <-> exists it, it ∈ list_widget w /\ isSelected it = true /\ text it = l.
Proof.
  unfold selectedItems. rewrite list_elem_of_fmap. split.
  - intros (it & -> & Hin). apply list_elem_of_In, filter_In in Hin as [Hin Hs].
    exists it. by rewrite list_elem_of_In.
  - intros (it & Hin & Hs & <-). exists it. split; [done|].
    apply list_elem_of_In, filter_In. by rewrite <- list_elem_of_In.
Qed.

Lemma selectedItems_ignores_checkState (f : QListWidgetItem -> CheckState) w :
  text <$> selectedItems
             (with_list ((fun it => item_with_checkState (f it) it) <$> list_widget w) w)
  = text <$> selectedItems w.
Proof.
  unfold selectedItems. simpl. induction (list_widget w) as [|it l IH]; [done|].
  rewrite fmap_cons. simpl. destruct (isSelected it); rewrite ?fmap_cons; by rewrite IH.
Qed.

Lemma camera_eq (c c' : Camera) :
  label c = label c' -> selected c = selected c' -> photo c = photo c' -> c = c'.
Proof. destruct c, c'. simpl. by intros -> -> ->. Qed.

(** C5: with a chunk open, the selection-changed reaction returns, leaves
    list and entry map as they are, and rewrites the selection flag of every
    camera of the chunk, and nothing else of the host: afterwards the chunk
    of the host holds the same cameras, in order, each with its label and
    photo, and its flag is true exactly when some highlighted row carries the
    camera's label.  The result does not depend on the checkbox of any
    row. *)
Theorem update_items_selects_highlighted (w : CameraSelector) (cs : list Camera) :
  chunk_cameras (app w) = Some cs ->
  exists cs',
    update_items w = (with_app (set_cameras cs' (app w)) w, Returned) /\
    chunk_cameras (app (fst (update_items w))) = Some cs' /\
    list_widget (fst (update_items w)) = list_widget w /\
    items (fst (update_items w)) = items w /\
    (forall d, document (app w) = Some d ->
       exists d', document (app (fst (update_items w))) = Some d' /\
                  doc_path d' = doc_path d) /\
    length cs' = length cs /\
    (forall k c, cs !! k = Some c ->
       exists c', cs' !! k = Some c' /\ label c' = label c /\ photo c' = photo c /\
         (selected c' = true <->
          exists it, it ∈ list_widget w /\ isSelected it = true /\ text it = label c)) /\
    (forall f : QListWidgetItem -> CheckState,
       app (fst (update_items
                   (with_list ((fun it => item_with_checkState (f it) it) <$> list_widget w) w)))
       = set_cameras cs' (app w) /\
       chunk_cameras
         (app (fst (update_items
                 (with_list ((fun it => item_with_checkState (f it) it) <$> list_widget w) w))))
       = Some cs').
Proof.
  intros Hcs. eexists. split; [by apply update_items_open|].
  rewrite (update_items_open w cs Hcs). simpl.
  split; [by apply (chunk_cameras_set_cameras _ cs)|].
  split; [done|]. split; [done|]. split.
  { intros d Hd. unfold set_cameras. rewrite Hd.
    unfold chunk_cameras in Hcs. rewrite Hd in Hcs.
    destruct (chunk d); [|done]. by eexists. }
  split; [by rewrite length_fmap|]. split.
  - intros k c Hk. eexists. rewrite list_lookup_fmap, Hk. simpl.
    split; [done|]. split; [done|]. split; [done|].
    simpl. by rewrite bool_decide_eq_true, selected_text_iff.
  - intros f. rewrite (update_items_open _ cs) by done. simpl.
    rewrite selectedItems_ignores_checkState.
    split; [done|]. by apply (chunk_cameras_set_cameras _ cs).
Qed.

Lemma update_items_selects_highlighted_witness :
  chunk_cameras
    (app (fst (update_items
      {| app := host_of [cam "A" false "/p/a.jpg"; cam "B" true "/p/b.jpg"];
         list_widget := [ {| text := "A"; checkState := Unchecked; isSelected := true |};
                          {| text := "B"; checkState := Checked; isSelected := false |} ];
         items := {[ "A" := 0; "B" := 1 ]} |})))
  = Some [cam "A" true "/p/a.jpg"; cam "B" false "/p/b.jpg"].
Proof.
  destruct (update_items_selects_highlighted
      {| app := host_of [cam "A" false "/p/a.jpg"; cam "B" true "/p/b.jpg"];
         list_widget := [ {| text := "A"; checkState := Unchecked; isSelected := true |};
                          {| text := "B"; checkState := Checked; isSelected := false |} ];
         items := {[ "A" := 0; "B" := 1 ]} |}
      [cam "A" false "/p/a.jpg"; cam "B" true "/p/b.jpg"] eq_refl)
    as (cs' & _ & Hhost & _ & _ & _ & Hlen & Hflags & _).
  rewrite Hhost. f_equal.
  destruct (Hflags 0 _ eq_refl) as (c0 & H0 & Hl0 & Hp0 & Hs0).
  destruct (Hflags 1 _ eq_refl) as (c1 & H1 & Hl1 & Hp1 & Hs1).
  destruct cs' as [|x0 [|x1 [|x2 cs']]]; try discriminate Hlen.
  injection H0 as ->. injection H1 as ->. f_equal; [|f_equal].
  - apply camera_eq; [exact Hl0| |exact Hp0].
    apply Hs0. eexists. split; [by left|]. split; reflexivity.
  - apply camera_eq; [exact Hl1| |exact Hp1].
    destruct (selected c1); [|reflexivity].
    destruct (proj1 Hs1 eq_refl) as (it & Hin & Hsel & Ht).
    apply elem_of_cons in Hin as [->|Hin]; [discriminate Ht|].
    apply elem_of_cons in Hin as [->|Hin]; [discriminate Hsel|]. inversion Hin.
Defined.

(** ** Pull: check_selected *)

Lemma item_with_checkState_idemp s it :
  item_with_checkState s (item_with_checkState s it) = item_with_checkState s it.
Proof. done. Qed.

Lemma elem_of_pull_rows w cs i : i ∈ pull_rows (items w) cs <-> pulled w cs i.
Proof.
  unfold pull_rows, pulled. rewrite list_elem_of_omap. split.
  - intros (c & Hin & Hc). exists c. destruct (selected c); [done|discriminate].
  - intros (c & Hin & Hs & Hi). exists c. by rewrite Hs.
Qed.

Lemma check_selected_loop_covered cs w :
  (forall c, c ∈ cs -> selected c = true -> is_Some (items w !! label c)) ->
  check_selected_loop cs w
  = (with_list (alter_each (item_with_checkState Checked) (pull_rows (items w) cs)
                  (list_widget w)) w, Returned).
Proof.
  revert w. induction cs as [|c cs IH]; intros w Hcov; simpl.
  - by destruct w.
  - unfold pull_rows. simpl. destruct (selected c) eqn:Hs.
    + destruct (Hcov c) as [i Hi]; [by left|done|]. rewrite Hi.
      rewrite IH; [done|]. intros c' Hc' Hs'. simpl. apply Hcov; [by right|done].
    + apply IH. intros c' Hc' Hs'. apply Hcov; [by right|done].
Qed.

(** C6: with a chunk open whose cameras all have an entry, Pull returns and
    changes neither the host nor the entry map; the rows that are the entry
    of a camera the host marks selected end with a checked checkbox, text
    and highlight as before; every other row is exactly as before. *)
Theorem check_selected_checks_host_selected (w : CameraSelector) (cs : list Camera) :
  chunk_cameras (app w) = Some cs ->
  covers w cs ->
  exists w',
    check_selected w = (w', Returned) /\
    app w' = app w /\
    items w' = items w /\
    length (list_widget w') = length (list_widget w) /\
    (forall i it, list_widget w !! i = Some it ->
       (pulled w cs i ->
        list_widget w' !! i
        = Some {| text := text it; checkState := Checked; isSelected := isSelected it |}) /\
       (~ pulled w cs i -> list_widget w' !! i = Some it)).
Proof.
  intros Hcs Hcov. unfold check_selected. rewrite Hcs.
  rewrite check_selected_loop_covered by (intros c Hc _; by apply Hcov).
  eexists. split; [done|]. simpl. split; [done|]. split; [done|].
  split; [apply alter_each_length|].
  intros i it Hi. rewrite alter_each_lookup by apply item_with_checkState_idemp.
  rewrite Hi. simpl. rewrite <- elem_of_pull_rows.
  split; intros H; [by rewrite decide_True|by rewrite decide_False].
Qed.

Lemma fresh_selector_covers : covers fresh_selector two_cameras.
Proof.
  intros c Hc. apply elem_of_cons in Hc as [->|Hc]; [by eexists|].
  apply elem_of_cons in Hc as [->|Hc]; [by eexists|]. inversion Hc.
Qed.

Lemma check_selected_checks_host_selected_witness :
  exists w',
    check_selected fresh_selector = (w', Returned) /\
    app w' = host_of two_cameras /\
    list_widget w' !! 0
    = Some {| text := "A"; checkState := Checked; isSelected := false |} /\
    list_widget w' !! 1
    = Some {| text := "B"; checkState := Unchecked; isSelected := false |}.
Proof.
  destruct (check_selected_checks_host_selected fresh_selector two_cameras
              eq_refl fresh_selector_covers)
    as (w' & Hrun & Happ & _ & _ & Hrows).
  exists w'. split; [exact Hrun|]. split; [exact Happ|]. split.
  - apply (Hrows 0 (unchecked_item "A") eq_refl).
    exists (cam "A" true "/p/a.jpg"). split; [by left|]. split; reflexivity.
  - apply (Hrows 1 (unchecked_item "B") eq_refl).
    intros (c & Hc & Hs & Hi).
    apply elem_of_cons in Hc as [->|Hc]; [discriminate Hi|].
    apply elem_of_cons in Hc as [->|Hc]; [discriminate Hs|]. inversion Hc.
Defined.

(** ** Clear: clear_selected *)

Lemma elem_of_entry_rows w i : i ∈ (map_to_list (items w)).*2 <-> is_entry w i.
Proof.
  unfold is_entry. rewrite list_elem_of_fmap. split.
  - intros ([l j] & -> & Hin). exists l. by apply elem_of_map_to_list.
  - intros (l & Hl). exists (l, i). split; [done|]. by apply elem_of_map_to_list.
Qed.

(** C8: whatever the checkboxes were, Clear returns, leaves the host and the
    entry map untouched, and unchecks every entry of the map; a row that is
    no entry of the map keeps its checkbox, and no row changes its text or
    highlight.  When every row is an entry (one entry per label), every row
    of the list ends unchecked. *)
Theorem clear_selected_unchecks_entries (w : CameraSelector) :
  exists w',
    clear_selected w = (w', Returned) /\
    app w' = app w /\
    items w' = items w /\
    length (list_widget w') = length (list_widget w) /\
    (forall i it, list_widget w !! i = Some it ->
       (is_entry w i -> list_widget w' !! i = Some (item_with_checkState Unchecked it)) /\
       (~ is_entry w i -> list_widget w' !! i = Some it)) /\
    (forall l i it', items w !! l = Some i -> list_widget w' !! i = Some it' ->
       checkState it' = Unchecked) /\
    (rows_keyed w ->
     forall i it', list_widget w' !! i = Some it' -> checkState it' = Unchecked).
Proof.
  unfold clear_selected. rewrite foldl_setCheckState.
  eexists. split; [done|]. simpl. split; [done|]. split; [done|].
  split; [apply alter_each_length|].
  assert (Hrow : forall i it, list_widget w !! i = Some it ->
     (is_entry w i ->
      alter_each (item_with_checkState Unchecked) (map_to_list (items w)).*2 (list_widget w) !! i
      = Some (item_with_checkState Unchecked it)) /\
     (~ is_entry w i ->
      alter_each (item_with_checkState Unchecked) (map_to_list (items w)).*2 (list_widget w) !! i
      = Some it)).
  { intros i it Hi. rewrite alter_each_lookup by apply item_with_checkState_idemp.
    rewrite Hi. simpl. rewrite <- elem_of_entry_rows.
    split; intros H; [by rewrite decide_True|by rewrite decide_False]. }
  assert (Hent : forall i it', is_entry w i ->
     alter_each (item_with_checkState Unchecked) (map_to_list (items w)).*2 (list_widget w) !! i
     = Some it' -> checkState it' = Unchecked).
  { intros i it' He Hi'.
    destruct (list_widget w !! i) as [it|] eqn:Hi.
    - destruct (Hrow i it Hi) as [H1 _]. rewrite (H1 He) in Hi'. by injection Hi' as <-.
    - apply lookup_ge_None in Hi. apply lookup_lt_Some in Hi'.
      rewrite alter_each_length in Hi'. lia. }
  split; [exact Hrow|]. split.
  - intros l i it' Hl. apply Hent. by exists l.
  - intros Hk i it' Hi'. apply (Hent i it'); [|done].
    destruct (list_widget w !! i) as [it|] eqn:Hi.
    + exists (text it). by apply Hk.
    + apply lookup_ge_None in Hi. apply lookup_lt_Some in Hi'.
      rewrite alter_each_length in Hi'. lia.
Qed.

Lemma clear_selected_unchecks_entries_witness :
  exists w',
    clear_selected
      {| app := host_of [cam "A" true "/p/a.jpg"];
         list_widget := [ {| text := "A"; checkState := Checked; isSelected := true |} ];
         items := {[ "A" := 0 ]} |} = (w', Returned) /\
    app w' = host_of [cam "A" true "/p/a.jpg"] /\
    list_widget w' !! 0 = Some {| text := "A"; checkState := Unchecked; isSelected := true |}.
Proof.
  destruct (clear_selected_unchecks_entries
      {| app := host_of [cam "A" true "/p/a.jpg"];
         list_widget := [ {| text := "A"; checkState := Checked; isSelected := true |} ];
         items := {[ "A" := 0 ]} |})
    as (w' & Hrun & Happ & _ & _ & Hrows & _).
  exists w'. split; [exact Hrun|]. split; [exact Happ|].
  apply (Hrows 0 _ eq_refl). exists "A". reflexivity.
Defined.

(** ** Export: export_cameras *)

Lemma string_append_cons x (a b : string) :
  String.append (String x a) b = String x (String.append a b).
Proof. reflexivity. Qed.

Lemma string_append_assoc (a b c : string) :
  String.append (String.append a b) c = String.append a (String.append b c).
Proof.
  induction a as [|x a IH]; [reflexivity|]. by rewrite !string_append_cons, IH.
Qed.

Lemma string_append_nil_r (a : string) : String.append a "" = a.
Proof.
  induction a as [|x a IH]; [reflexivity|]. by rewrite string_append_cons, IH.
Qed.




Lemma highlighted_from_ignores_checkState (f : QListWidgetItem -> CheckState) n l :
  highlighted_from n ((fun it => item_with_checkState (f it) it) <$> l)
  = highlighted_from n l.
Proof.
  revert n. induction l as [|it l IH]; intros n; [done|].
  rewrite fmap_cons. simpl. by rewrite IH.
Qed.

Lemma omap_cons_eq {A B} (f : A -> option B) (x : A) (l : list A) :
  omap f (x :: l) = match f x with Some y => y :: omap f l | None => omap f l end.
Proof. reflexivity. Qed.

Lemma omap_lookup_same_texts (g : QListWidgetItem -> QListWidgetItem)
    (l : list QListWidgetItem) (rows : list nat) :
  (forall it, text (g it) = text it) ->
  text <$> omap (fun i => (g <$> l) !! i) rows = text <$> omap (fun i => l !! i) rows.
Proof.
  intros Hg. induction rows as [|i rows IH]; [done|].
  rewrite !omap_cons_eq, list_lookup_fmap.
  destruct (l !! i) as [it|]; [|exact IH].
  change (g <$> Some it) with (Some (g it)). cbv iota beta.
  rewrite !fmap_cons, Hg. f_equal. exact IH.
Qed.

Lemma selectedItems_in_order_ignores_checkState
    selection_order (f : QListWidgetItem -> CheckState) w :
  text <$> selectedItems_in_order selection_order
             (with_list ((fun it => item_with_checkState (f it) it) <$> list_widget w) w)
  = text <$> selectedItems_in_order selection_order w.
Proof.
  unfold selectedItems_in_order, highlighted_rows. simpl.
  rewrite highlighted_from_ignores_checkState.
  by apply omap_lookup_same_texts.
Qed.

Section ExportProperties.

Variable get_camera : option Chunk -> string -> option Camera.
Variable default_export_path : string -> string.
Variable getSaveFileName : string -> string.
Variable selection_order : list nat -> list nat.
Variable open_succeeds : string -> bool.

Lemma resolve_cameras_open a d ls :
  document a = Some d ->
  resolve_cameras get_camera a ls = inr (get_camera (chunk d) <$> ls).
Proof.
  intros Hd. induction ls as [|l ls IH]; simpl; [done|]. by rewrite Hd, IH.
Qed.

Lemma write_cameras_content p cs fs s :
  fs !! p = Some s ->
  write_cameras p cs fs
  = <[p := String.append s (file_content (camera_line <$> omap id cs))]> fs.
Proof.
  revert fs s. induction cs as [|[c|] cs IH]; intros fs s Hs; simpl.
  - rewrite string_append_nil_r. symmetry. by apply insert_id.
  - rewrite (IH _ (String.append s (camera_line c))).
    + unfold file_write. rewrite insert_alter_eq. by rewrite string_append_assoc.
    + unfold file_write. rewrite lookup_alter_eq, Hs. done.
  - by apply IH.
Qed.

Lemma omap_id_fmap {A B} (f : A -> option B) (l : list A) : omap id (f <$> l) = omap f l.
Proof.
  induction l as [|x l IH]; [done|]. rewrite fmap_cons.
  change (omap id (f x :: (f <$> l)))
    with (match f x with Some y => y :: omap id (f <$> l) | None => omap id (f <$> l) end).
  by rewrite IH.
Qed.

Lemma export_cameras_confirmed w fs d :
  document (app w) = Some d ->
  getSaveFileName (default_export_path (doc_path d)) <> "" ->
  open_succeeds (getSaveFileName (default_export_path (doc_path d))) = true ->
  export_cameras get_camera default_export_path getSaveFileName
    selection_order open_succeeds w fs
  = (<[getSaveFileName (default_export_path (doc_path d)) :=
         file_content (camera_line <$>
           resolved get_camera (chunk d)
             (text <$> selectedItems_in_order selection_order w))]> fs,
     Returned).
Proof.
  intros Hd Hp Ho. unfold export_cameras.
  rewrite (resolve_cameras_open _ d) by done. rewrite Hd.
  rewrite bool_decide_eq_false_2 by done. rewrite Ho.
  rewrite (write_cameras_content _ _ _ "") by apply lookup_insert_eq.
  unfold open_w. rewrite insert_insert_eq. simpl. unfold resolved.
  by rewrite omap_id_fmap.
Qed.

Lemma export_cameras_cancelled w fs d :
  document (app w) = Some d ->
  getSaveFileName (default_export_path (doc_path d)) = "" ->
  export_cameras get_camera default_export_path getSaveFileName
    selection_order open_succeeds w fs = (fs, Returned).
Proof.
  intros Hd Hp. unfold export_cameras.
  rewrite (resolve_cameras_open _ d) by done. rewrite Hd.
  by rewrite bool_decide_eq_true_2.
Qed.

(** Where the chosen path cannot be opened, [open] raises and no file is
    written. *)
Lemma export_cameras_open_fails w fs d :
  document (app w) = Some d ->
  getSaveFileName (default_export_path (doc_path d)) <> "" ->
  open_succeeds (getSaveFileName (default_export_path (doc_path d))) = false ->
  export_cameras get_camera default_export_path getSaveFileName
    selection_order open_succeeds w fs = (fs, Raised OSError).
Proof.
  intros Hd Hp Ho. unfold export_cameras.
  rewrite (resolve_cameras_open _ d) by done. rewrite Hd.
  rewrite bool_decide_eq_false_2 by done. by rewrite Ho.
Qed.

End ExportProperties.



(** C9: when the prompt is reached (a document is open) and cancelled, that
    is, it answers the empty path, Export returns without an error and the
    file system is exactly as before. *)
Theorem export_cameras_cancelled_writes_nothing
    (get_camera : option Chunk -> string -> option Camera)
    (default_export_path getSaveFileName : string -> string)
    (selection_order : list nat -> list nat) (open_succeeds : string -> bool)
    (w : CameraSelector) (fs : gmap string string) (d : Document) :
  document (app w) = Some d ->
  getSaveFileName (default_export_path (doc_path d)) = "" ->
  export_cameras get_camera default_export_path getSaveFileName
    selection_order open_succeeds w fs = (fs, Returned).
Proof. apply export_cameras_cancelled. Qed.

Lemma export_cameras_cancelled_writes_nothing_witness :
  export_cameras find_camera (fun _ => "/proj/cameras.csv") (fun _ => "")
    (fun rows => rows) (fun _ => true)
    selected_selector {[ "/out/cameras.csv" := "old" ]}
  = ({[ "/out/cameras.csv" := "old" ]}, Returned).
Proof.
  exact (export_cameras_cancelled_writes_nothing
           find_camera (fun _ => "/proj/cameras.csv") (fun _ => "")
           (fun rows => rows) (fun _ => true)
           selected_selector {[ "/out/cameras.csv" := "old" ]}
           {| chunk := Some {| cameras := [cam "A" true "/p/a.jpg"] |};
              doc_path := "/proj/p.psx" |}
           eq_refl eq_refl).
Defined.

(** ** Push: select_checked *)

Lemma is_checked_spec it : is_checked it = true <-> checkState it <> Unchecked.
Proof. unfold is_checked. by destruct (checkState it). Qed.

Lemma item_with_selected_same it : item_with_selected (isSelected it) it = it.
Proof. by destruct it. Qed.

Lemma mirror_checked_text D it : text (mirror_checked D it) = text it.
Proof. unfold mirror_checked. by case_bool_decide. Qed.

Lemma mirror_checked_is_checked D it : is_checked (mirror_checked D it) = is_checked it.
Proof. unfold mirror_checked. by case_bool_decide. Qed.

Lemma mirror_checked_in D it :
  text it ∈ D -> mirror_checked D it = item_with_selected (is_checked it) it.
Proof. intros H. unfold mirror_checked. by rewrite bool_decide_eq_true_2. Qed.

Lemma mirror_checked_notin D it : text it ∉ D -> mirror_checked D it = it.
Proof. intros H. unfold mirror_checked. by rewrite bool_decide_eq_false_2. Qed.

Lemma labels_at_cons cs k ks c :
  cs !! k = Some c -> labels_at cs (k :: ks) = label c :: labels_at cs ks.
Proof. intros H. unfold labels_at. simpl. by rewrite H. Qed.

Lemma elem_of_labels_at cs ks k c :
  k ∈ ks -> cs !! k = Some c -> label c ∈ labels_at cs ks.
Proof.
  intros Hk Hc. unfold labels_at. apply list_elem_of_omap. exists k.
  split; [done|]. by rewrite Hc.
Qed.

Lemma labels_at_seq_from (l cs : list Camera) :
  labels_at (l ++ cs) (seq (length l) (length cs)) = label <$> cs.
Proof.
  revert l. induction cs as [|c cs IH]; intros l; [done|].
  change (seq (length l) (length (c :: cs)))
    with (length l :: seq (S (length l)) (length cs)).
  rewrite (labels_at_cons _ _ _ c).
  - rewrite fmap_cons. f_equal. specialize (IH (l ++ [c])).
    rewrite <- app_assoc, length_app in IH. simpl in IH.
    by replace (length l + 1) with (S (length l)) in IH by lia.
  - by rewrite lookup_app_r, Nat.sub_diag.
Qed.

Lemma labels_at_seq cs : labels_at cs (seq 0 (length cs)) = label <$> cs.
Proof. apply (labels_at_seq_from [] cs). Qed.

Lemma selected_rows_iff (rows : list QListWidgetItem) l :
  l ∈ text <$> List.filter isSelected rows
  <-> exists it, it ∈ rows /\ isSelected it = true /\ text it = l.
Proof.
  apply (selected_text_iff
           {| app := {| document := None |}; list_widget := rows; items := ∅ |}).
Qed.

Lemma camera_set_selected_open k b w cs :
  chunk_cameras (app w) = Some cs ->
  camera_set_selected k b w
  = with_app (set_cameras (alter (set_selected b) k cs) (app w)) w.
Proof. intros H. unfold camera_set_selected. by rewrite H. Qed.

Lemma setSelected_open i b w it cs :
  list_widget w !! i = Some it ->
  chunk_cameras (app w) = Some cs ->
  setSelected i b w =
    if bool_decide (isSelected it = b) then w
    else
      let rows := <[i := item_with_selected b it]> (list_widget w) in
      with_app
        (set_cameras
           ((fun camera =>
               set_selected
                 (bool_decide (label camera ∈ text <$> List.filter isSelected rows)) camera)
              <$> cs) (app w))
        (with_list rows w).
Proof.
  intros Hi Hcs. unfold setSelected. rewrite Hi. case_bool_decide; [done|].
  unfold itemSelectionChanged. by rewrite (update_items_open _ cs).
Qed.

Lemma fmap_alter_set_selected {B} (f : Camera -> B) b (k : nat) (cs : list Camera) :
  (forall c, f (set_selected b c) = f c) ->
  f <$> alter (set_selected b) k cs = f <$> cs.
Proof.
  intros Hf. rewrite (list_fmap_alter f (set_selected b) id).
  - by apply list_alter_id.
  - apply Forall_forall. intros c _. apply Hf.
Qed.

Lemma setSelected_items i b w : items (setSelected i b w) = items w.
Proof.
  unfold setSelected. destruct (list_widget w !! i); [|done].
  case_bool_decide; [done|]. by rewrite itemSelectionChanged_items.
Qed.




Lemma camera_set_selected_items k b w : items (camera_set_selected k b w) = items w.
Proof. unfold camera_set_selected. by destruct (chunk_cameras (app w)). Qed.

Lemma camera_set_selected_list k b w :
  list_widget (camera_set_selected k b w) = list_widget w.
Proof. unfold camera_set_selected. by destruct (chunk_cameras (app w)). Qed.

Lemma select_checked_loop_cons k ks w cs c i it :
  chunk_cameras (app w) = Some cs ->
  cs !! k = Some c ->
  items w !! label c = Some i ->
  list_widget w !! i = Some it ->
  select_checked_loop (k :: ks) w
  = select_checked_loop ks
      (setSelected i (is_checked it) (camera_set_selected k (is_checked it) w)).
Proof.
  intros Hcs Hc Hi Hit. simpl. rewrite Hcs. simpl. rewrite Hc, Hi, Hit.
  unfold is_checked. by destruct (CheckState_eqb (checkState it) Unchecked).
Qed.

(** Writing the highlight of the entry of label [l] extends the mirrored
    labels by [l]. *)
Lemma mirror_checked_insert w0 D l i it0 :
  rows_keyed w0 ->
  list_widget w0 !! i = Some it0 ->
  text it0 = l ->
  <[i := item_with_selected (is_checked it0) (mirror_checked D it0)]>
    (mirror_checked D <$> list_widget w0)
  = mirror_checked (l :: D) <$> list_widget w0.
Proof.
  intros Hk Hi Ht. apply list_eq. intros j.
  destruct (decide (i = j)) as [<-|Hne].
  - rewrite list_lookup_insert_eq
      by (rewrite length_fmap; by apply lookup_lt_Some in Hi).
    rewrite list_lookup_fmap, Hi. simpl. f_equal.
    rewrite (mirror_checked_in (l :: D)) by (rewrite Ht; by left).
    unfold mirror_checked. by case_bool_decide.
  - rewrite list_lookup_insert_ne by done. rewrite !list_lookup_fmap.
    destruct (list_widget w0 !! j) as [itj|] eqn:Hj; simpl; [|done]. f_equal.
    assert (text itj <> l).
    { intros E. apply Hk in Hi, Hj. rewrite Ht in Hi. rewrite E in Hj. congruence. }
    unfold mirror_checked.
    destruct (decide (text itj ∈ D)) as [Hin|Hnin].
    + rewrite !bool_decide_eq_true_2; [done| by right | done].
    + rewrite !bool_decide_eq_false_2; [done| | done].
      intros [E|E]%elem_of_cons; done.
Qed.

(** Under the mirror, a mirrored label is among the highlighted texts
    exactly when its entry is checked. *)
Lemma selected_texts_mirror w0 D l it :
  items_live w0 -> rows_keyed w0 ->
  l ∈ D -> entry w0 l = Some it ->
  bool_decide (l ∈ text <$> List.filter isSelected (mirror_checked D <$> list_widget w0))
  = is_checked it.
Proof.
  intros Hlive Hkeyed HD He. unfold entry in He.
  destruct (items w0 !! l) as [i|] eqn:Hi; [|done]. simpl in He.
  destruct (Hlive _ _ Hi) as (it' & Hit' & Ht). rewrite He in Hit'. injection Hit' as <-.
  destruct (is_checked it) eqn:Hc.
  - apply bool_decide_eq_true_2, selected_rows_iff.
    exists (mirror_checked D it). split.
    + apply list_elem_of_fmap_2. by apply list_elem_of_lookup_2 in He.
    + rewrite mirror_checked_text. split; [|done].
      rewrite mirror_checked_in by (by rewrite Ht). done.
  - apply bool_decide_eq_false_2. rewrite selected_rows_iff.
    intros (itm & Hin & Hs & Htm).
    apply list_elem_of_fmap in Hin as (itj & -> & Hin).
    apply list_elem_of_lookup in Hin as (j & Hj).
    rewrite mirror_checked_text in Htm.
    assert (j = i) as ->.
    { apply Hkeyed in Hj. rewrite Htm in Hj. congruence. }
    assert (itj = it) as -> by congruence.
    rewrite mirror_checked_in in Hs by (by rewrite Ht). simpl in Hs. congruence.
Qed.

Lemma lookup_same_labels (cs cs0 : list Camera) (k : nat) c :
  label <$> cs = label <$> cs0 -> cs !! k = Some c ->
  exists c0, cs0 !! k = Some c0 /\ label c0 = label c.
Proof.
  intros Hlab Hc.
  assert (H : (label <$> cs0) !! k = (label <$> cs) !! k) by (by rewrite Hlab).
  rewrite !list_lookup_fmap, Hc in H.
  destruct (cs0 !! k) as [c0|]; [|done]. exists c0. split; [done|]. by injection H.
Qed.

Lemma push_inv_step w0 cs0 visited k ks w :
  chunk_cameras (app w0) = Some cs0 ->
  items_live w0 -> rows_keyed w0 -> covers w0 cs0 ->
  push_inv w0 cs0 visited w ->
  k < length cs0 ->
  exists w1,
    select_checked_loop (k :: ks) w = select_checked_loop ks w1 /\
    push_inv w0 cs0 (k :: visited) w1.
Proof.
  intros Hcs0 Hlive Hkeyed Hcov (Hitems & Hrows & cs & Happ & Hlab & Hph & Hsel) Hk.
  assert (Hcs : chunk_cameras (app w) = Some cs).
  { rewrite Happ. by apply (chunk_cameras_set_cameras _ cs0). }
  destruct (lookup_lt_is_Some_2 cs0 k Hk) as [c0 Hc0].
  destruct (lookup_same_labels cs0 cs k c0 (eq_sym Hlab) Hc0) as (c & Hc & Hlc).
  destruct (Hcov c0) as [i Hi]; [by eapply list_elem_of_lookup_2|].
  destruct (Hlive _ _ Hi) as (it0 & Hit0 & Ht0).
  assert (Hit : list_widget w !! i = Some (mirror_checked (labels_at cs0 visited) it0)).
  { by rewrite Hrows, list_lookup_fmap, Hit0. }
  assert (He0 : entry w0 (label c0) = Some it0).
  { unfold entry. by rewrite Hi. }
  eexists. split.
  { eapply select_checked_loop_cons; [exact Hcs|exact Hc| |exact Hit].
    by rewrite Hitems, Hlc. }
  unfold push_inv.
  rewrite mirror_checked_is_checked.
  rewrite (camera_set_selected_open _ _ _ cs Hcs).
  rewrite (labels_at_cons _ _ _ c0 Hc0).
  set (b := is_checked it0).
  set (cs1 := alter (set_selected b) k cs).
  assert (Hlab1 : label <$> cs1 = label <$> cs0).
  { unfold cs1. by rewrite fmap_alter_set_selected. }
  assert (Hph1 : photo <$> cs1 = photo <$> cs0).
  { unfold cs1. by rewrite fmap_alter_set_selected. }
  assert (Hsel1 : forall k' c' it', k' ∈ k :: visited -> cs1 !! k' = Some c' ->
            entry w0 (label c') = Some it' -> selected c' = is_checked it').
  { intros k' c' it' Hk' Hc' He'. unfold cs1 in Hc'.
    destruct (decide (k = k')) as [<-|Hne].
    - rewrite list_lookup_alter_eq, Hc in Hc'. injection Hc' as <-.
      simpl in *. rewrite Hlc in He'. unfold b. congruence.
    - rewrite list_lookup_alter_ne in Hc' by done.
      apply (Hsel k'); [|done|done].
      apply elem_of_cons in Hk' as [E|E]; [congruence|done]. }
  erewrite (setSelected_open i b _ _ cs1); cycle 1.
  { simpl. exact Hit. }
  { simpl. by apply (chunk_cameras_set_cameras _ cs). }
  case_bool_decide as Hb.
  - split; [done|]. split.
    + simpl. rewrite Hrows.
      rewrite <- (mirror_checked_insert w0 _ (label c0) i it0) by done.
      symmetry. apply list_insert_id. rewrite list_lookup_fmap, Hit0. simpl.
      fold b. rewrite <- Hb. by rewrite item_with_selected_same.
    + exists cs1. split; [|done]. simpl. by rewrite Happ, set_cameras_twice.
  - assert (Hrows2 : <[i := item_with_selected b (mirror_checked (labels_at cs0 visited) it0)]>
                       (list_widget w)
                     = mirror_checked (label c0 :: labels_at cs0 visited) <$> list_widget w0).
    { rewrite Hrows. by apply mirror_checked_insert. }
    cbv zeta. simpl list_widget. rewrite Hrows2.
    split; [done|]. split; [done|].
    eexists. split; [|split; [|split]].
    + simpl. by rewrite Happ, !set_cameras_twice.
    + rewrite <- list_fmap_compose. rewrite <- Hlab1. by apply list_fmap_ext.
    + rewrite <- list_fmap_compose. rewrite <- Hph1. by apply list_fmap_ext.
    + intros k' c' it' Hk' Hc' He'.
      rewrite list_lookup_fmap in Hc'.
      destruct (cs1 !! k') as [c1|] eqn:Hc1; [|done]. injection Hc' as <-.
      simpl in *. apply selected_texts_mirror; [done|done| |done].
      destruct (lookup_same_labels cs1 cs0 k' c1 Hlab1 Hc1) as (c0' & Hc0' & Hl).
      rewrite <- Hl. rewrite <- (labels_at_cons _ _ _ c0 Hc0).
      by apply (elem_of_labels_at _ _ k').
Qed.

Lemma push_inv_start w0 cs0 :
  chunk_cameras (app w0) = Some cs0 -> push_inv w0 cs0 [] w0.
Proof.
  intros Hcs0. split; [done|]. split.
  - rewrite <- (list_fmap_id (list_widget w0)) at 1. apply list_fmap_ext.
    intros i it _. symmetry. apply mirror_checked_notin. apply not_elem_of_nil.
  - exists cs0. split; [by rewrite set_cameras_id|]. split; [done|]. split; [done|].
    intros k c it Hk. by apply elem_of_nil in Hk.
Qed.

Lemma push_inv_loop w0 cs0 ks :
  chunk_cameras (app w0) = Some cs0 ->
  items_live w0 -> rows_keyed w0 -> covers w0 cs0 ->
  forall visited w,
    (forall k, k ∈ ks -> k < length cs0) ->
    push_inv w0 cs0 visited w ->
    exists w',
      select_checked_loop ks w = (w', Returned) /\
      push_inv w0 cs0 (rev ks ++ visited) w'.
Proof.
  intros Hcs0 Hlive Hkeyed Hcov.
  induction ks as [|k ks IH]; intros visited w Hks Hinv.
  - exists w. by split.
  - destruct (push_inv_step w0 cs0 visited k ks w) as (w1 & Hstep & Hinv1);
      [done..| apply Hks; by left |].
    destruct (IH (k :: visited) w1) as (w' & Hrun & Hinv'); [|done|].
    { intros k' Hk'. apply Hks. by right. }
    exists w'. split; [by rewrite Hstep|].
    simpl. by rewrite <- app_assoc.
Qed.

Lemma elem_of_rev {A} (x : A) (l : list A) : x ∈ rev l <-> x ∈ l.
Proof. rewrite !list_elem_of_In. symmetry. apply in_rev. Qed.

Lemma elem_of_labels_at_all (cs : list Camera) l :
  l ∈ labels_at cs (rev (seq 0 (length cs)) ++ []) <-> l ∈ label <$> cs.
Proof.
  rewrite app_nil_r. rewrite <- labels_at_seq. unfold labels_at.
  rewrite !list_elem_of_omap. split; intros (k & Hk & Hl); exists k; (split; [|done]).
  - by rewrite elem_of_rev in Hk.
  - by rewrite elem_of_rev.
Qed.

Lemma mirror_checked_ext D D' it :
  (forall l, l ∈ D <-> l ∈ D') -> mirror_checked D it = mirror_checked D' it.
Proof.
  intros H. unfold mirror_checked.
  destruct (decide (text it ∈ D)) as [Hin|Hnin].
  - rewrite !bool_decide_eq_true_2; [done| by apply H | done].
  - rewrite !bool_decide_eq_false_2; [done| by rewrite <- H | done].
Qed.

(** The full effect of Push on a panel with one entry per label whose map
    covers the chunk. *)
Lemma select_checked_covered w cs :
  chunk_cameras (app w) = Some cs ->
  items_live w -> rows_keyed w -> covers w cs ->
  exists w' cs',
    select_checked w = (w', Returned) /\
    app w' = set_cameras cs' (app w) /\
    items w' = items w /\
    list_widget w' = mirror_checked (label <$> cs) <$> list_widget w /\
    label <$> cs' = label <$> cs /\
    photo <$> cs' = photo <$> cs /\
    (forall k c' it, cs' !! k = Some c' -> entry w (label c') = Some it ->
       selected c' = is_checked it).
Proof.
  intros Hcs Hlive Hkeyed Hcov.
  destruct (push_inv_loop w cs (seq 0 (length cs)) Hcs Hlive Hkeyed Hcov [] w)
    as (w' & Hrun & Hitems & Hrows & cs' & Happ & Hlab & Hph & Hsel).
  { intros k Hk. apply elem_of_seq in Hk. lia. }
  { by apply push_inv_start. }
  exists w', cs'. unfold select_checked. rewrite Hcs.
  split; [done|]. split; [done|]. split; [done|]. split; [|split; [done|split; [done|]]].
  - rewrite Hrows. apply list_fmap_ext. intros i it _.
    apply mirror_checked_ext, elem_of_labels_at_all.
  - intros k c' it Hk He. apply (Hsel k); [|done|done].
    rewrite app_nil_r, elem_of_rev. apply elem_of_seq.
    apply lookup_lt_Some in Hk.
    assert (length cs' = length cs).
    { by rewrite <- (length_fmap label cs'), Hlab, length_fmap. }
    lia.
Qed.

(** ** One entry per label is an invariant of the panel *)

Lemma one_entry_per_label_same_texts w w' :
  items w' = items w ->
  text <$> list_widget w' = text <$> list_widget w ->
  one_entry_per_label w -> one_entry_per_label w'.
Proof.
  intros Hitems Htexts [Hlive Hkeyed].
  assert (Hrow : forall i it', list_widget w' !! i = Some it' ->
            exists it, list_widget w !! i = Some it /\ text it = text it').
  { intros i it' Hi.
    assert (H : (text <$> list_widget w) !! i = (text <$> list_widget w') !! i)
      by (by rewrite Htexts).
    rewrite !list_lookup_fmap, Hi in H.
    destruct (list_widget w !! i) as [it|]; [|done]. exists it. split; [done|].
    by injection H. }
  assert (Hrow' : forall i it, list_widget w !! i = Some it ->
            exists it', list_widget w' !! i = Some it' /\ text it' = text it).
  { intros i it Hi.
    assert (H : (text <$> list_widget w') !! i = (text <$> list_widget w) !! i)
      by (by rewrite Htexts).
    rewrite !list_lookup_fmap, Hi in H.
    destruct (list_widget w' !! i) as [it'|]; [|done]. exists it'. split; [done|].
    by injection H. }
  split.
  - intros l i Hl. rewrite Hitems in Hl.
    destruct (Hlive l i Hl) as (it & Hit & Ht).
    destruct (Hrow' i it Hit) as (it' & Hit' & Ht'). exists it'. split; [done|].
    congruence.
  - intros i it' Hi. destruct (Hrow i it' Hi) as (it & Hit & Ht).
    rewrite Hitems, <- Ht. by apply Hkeyed.
Qed.

Lemma setCheckState_texts i s w :
  text <$> list_widget (setCheckState i s w) = text <$> list_widget w.
Proof.
  unfold setCheckState. simpl.
  rewrite (list_fmap_alter text (item_with_checkState s) id).
  - by apply list_alter_id.
  - by apply Forall_forall.
Qed.

Lemma setSelected_texts i b w :
  text <$> list_widget (setSelected i b w) = text <$> list_widget w.
Proof.
  unfold setSelected. destruct (list_widget w !! i) as [it|] eqn:Hi; [|done].
  case_bool_decide; [done|]. rewrite itemSelectionChanged_list. simpl.
  rewrite list_fmap_insert. apply list_insert_id.
  by rewrite list_lookup_fmap, Hi.
Qed.

Lemma check_selected_loop_texts cs w :
  items (fst (check_selected_loop cs w)) = items w /\
  text <$> list_widget (fst (check_selected_loop cs w)) = text <$> list_widget w.
Proof.
  revert w. induction cs as [|c cs IH]; intros w; simpl; [done|].
  destruct (selected c); [|apply IH].
  destruct (items w !! label c) as [i|]; [|done].
  destruct (IH (setCheckState i Checked w)) as [-> ->].
  by rewrite setCheckState_texts.
Qed.

Lemma select_checked_loop_texts ks w :
  items (fst (select_checked_loop ks w)) = items w /\
  text <$> list_widget (fst (select_checked_loop ks w)) = text <$> list_widget w.
Proof.
  revert w. induction ks as [|k ks IH]; intros w; simpl; [done|].
  destruct (chunk_cameras (app w) ≫= _) as [c|]; [|done].
  destruct (items w !! label c) as [i|]; [|done].
  destruct (list_widget w !! i) as [it|]; [|done].
  destruct (CheckState_eqb _ _).
  - destruct (IH (setSelected i false (camera_set_selected k false w))) as [-> ->].
    by rewrite setSelected_items, setSelected_texts, camera_set_selected_items,
      camera_set_selected_list.
  - destruct (IH (setSelected i true (camera_set_selected k true w))) as [-> ->].
    by rewrite setSelected_items, setSelected_texts, camera_set_selected_items,
      camera_set_selected_list.
Qed.

(** Refresh on distinct labels establishes the invariant; Pull, Clear, Push
    and the selection-changed reaction keep it, whether they return or
    raise. *)
Lemma one_entry_per_label_invariant (w : CameraSelector) :
  (forall cs w', chunk_cameras (app w) = Some cs -> NoDup (label <$> cs) ->
     update_cameras w = (w', Returned) -> one_entry_per_label w') /\
  (one_entry_per_label w ->
     one_entry_per_label (fst (check_selected w)) /\
     one_entry_per_label (fst (clear_selected w)) /\
     one_entry_per_label (fst (select_checked w)) /\
     one_entry_per_label (fst (update_items w))).
Proof.
  split.
  - intros cs w' Hcs Hnd Hrun. by apply (update_cameras_keyed w cs).
  - intros Hwf. split; [|split; [|split]].
    + unfold check_selected. destruct (chunk_cameras (app w)) as [cs|]; [|done].
      destruct (check_selected_loop_texts cs w).
      by apply (one_entry_per_label_same_texts w).
    + unfold clear_selected. simpl. rewrite foldl_setCheckState.
      apply (one_entry_per_label_same_texts w); [done| |done]. simpl.
      generalize (map_to_list (items w)).*2. intros idxs.
      generalize (list_widget w). induction idxs as [|i idxs IH]; intros l; [done|].
      unfold alter_each in *. simpl. rewrite IH.
      apply (setCheckState_texts i Unchecked (with_list l w)).
    + unfold select_checked. destruct (chunk_cameras (app w)) as [cs|]; [|done].
      destruct (select_checked_loop_texts (seq 0 (length cs)) w).
      by apply (one_entry_per_label_same_texts w).
    + apply (one_entry_per_label_same_texts w); [|  |done].
      * apply itemSelectionChanged_items.
      * f_equal. apply itemSelectionChanged_list.
Qed.

(** C4, as stated, fails: an entry map that covers the chunk may hold more
    than the chunk.  The entry of a camera that left the chunk after the last
    refresh is not visited by Push, so it can stay checked and not
    highlighted: the highlighted rows are not the checked rows. *)
Lemma select_checked_partition_counterexample :
  chunk_cameras (app stale_selector) = Some [cam "B" false "/p/b.jpg"] /\
  covers stale_selector [cam "B" false "/p/b.jpg"] /\
  exists w',
    select_checked stale_selector = (w', Returned) /\
    ~ (forall it', it' ∈ list_widget w' -> isSelected it' = is_checked it').
Proof.
  split; [reflexivity|]. split.
  - intros c Hc. apply elem_of_cons in Hc as [->|Hc]; [by eexists|]. inversion Hc.
  - eexists. split; [vm_compute; reflexivity|].
    intros H.
    specialize (H {| text := "A"; checkState := Checked; isSelected := false |}).
    discriminate H. by left.
Qed.

(** C4, amended: for a panel with one entry per label (as Refresh builds it)
    whose entry map covers the chunk, Push returns, changes no checkbox and
    nothing of the host but the selection flags: afterwards the chunk of the
    host holds the same cameras, in order, each with its label and photo,
    the flag of every camera is true exactly when its entry's checkbox is
    checked (not unchecked), and the highlight of that entry is the same
    boolean.  A row whose text is the label of no camera of the chunk is left
    as it was; when there is no such row, the highlighted rows are exactly
    the checked rows. *)
Theorem select_checked_mirrors_checkboxes (w : CameraSelector) (cs : list Camera) :
  chunk_cameras (app w) = Some cs ->
  one_entry_per_label w ->
  covers w cs ->
  exists w' cs',
    select_checked w = (w', Returned) /\
    app w' = set_cameras cs' (app w) /\
    chunk_cameras (app w') = Some cs' /\
    (forall d, document (app w) = Some d ->
       exists d', document (app w') = Some d' /\ doc_path d' = doc_path d) /\
    items w' = items w /\
    length cs' = length cs /\
    length (list_widget w') = length (list_widget w) /\
    (forall k c, cs !! k = Some c ->
       exists c' it it',
         cs' !! k = Some c' /\ label c' = label c /\ photo c' = photo c /\
         entry w (label c) = Some it /\
         selected c' = is_checked it /\
         (selected c' = true <-> checkState it <> Unchecked) /\
         entry w' (label c) = Some (item_with_selected (is_checked it) it) /\
         entry w' (label c) = Some it' /\
         isSelected it' = selected c' /\
         checkState it' = checkState it /\
         text it' = text it) /\
    (forall i it, list_widget w !! i = Some it ->
       list_widget w' !! i
       = Some (if bool_decide (text it ∈ label <$> cs)
               then item_with_selected (is_checked it) it else it)) /\
    (forall i it, list_widget w !! i = Some it ->
       exists it', list_widget w' !! i = Some it' /\
         text it' = text it /\ checkState it' = checkState it /\
         (text it ∈ label <$> cs -> (isSelected it' = true <-> checkState it <> Unchecked)) /\
         (text it ∉ label <$> cs -> isSelected it' = isSelected it)) /\
    ((forall it, it ∈ list_widget w -> text it ∈ label <$> cs) ->
     forall it', it' ∈ list_widget w' -> isSelected it' = is_checked it').
Proof.
  intros Hcs [Hlive Hkeyed] Hcov.
  destruct (select_checked_covered w cs Hcs Hlive Hkeyed Hcov)
    as (w' & cs' & Hrun & Happ & Hitems & Hrows & Hlab & Hph & Hsel).
  exists w', cs'. split; [done|]. split; [done|].
  split; [rewrite Happ; by apply (chunk_cameras_set_cameras _ cs)|].
  split.
  { intros d Hd. rewrite Happ. unfold set_cameras. rewrite Hd.
    unfold chunk_cameras in Hcs. rewrite Hd in Hcs.
    destruct (chunk d); [|done]. by eexists. }
  split; [done|].
  assert (Hlen : length cs' = length cs).
  { by rewrite <- (length_fmap label cs'), Hlab, length_fmap. }
  split; [done|]. split; [by rewrite Hrows, length_fmap|].
  split; [|split; [|split]].
  - intros k c Hc.
    destruct (lookup_same_labels cs cs' k c (eq_sym Hlab) Hc) as (c' & Hc' & Hl).
    destruct (Hcov c) as [i Hi]; [by eapply list_elem_of_lookup_2|].
    destruct (Hlive _ _ Hi) as (it & Hit & Ht).
    assert (He : entry w (label c) = Some it) by (unfold entry; by rewrite Hi).
    assert (Hs : selected c' = is_checked it).
    { apply (Hsel k); [done|]. by rewrite Hl. }
    assert (He' : entry w' (label c) = Some (item_with_selected (is_checked it) it)).
    { unfold entry. rewrite Hitems, Hi. simpl.
      rewrite Hrows, list_lookup_fmap, Hit. simpl. f_equal.
      apply mirror_checked_in. rewrite Ht. apply list_elem_of_fmap_2.
      by eapply list_elem_of_lookup_2. }
    exists c', it, (item_with_selected (is_checked it) it).
    split; [done|]. split; [done|]. split.
    { assert (H : (photo <$> cs') !! k = (photo <$> cs) !! k) by (by rewrite Hph).
      rewrite !list_lookup_fmap, Hc, Hc' in H. by injection H. }
    split; [done|]. split; [done|]. split; [by rewrite Hs, is_checked_spec|].
    split; [done|]. split; [done|]. simpl. by rewrite Hs.
  - intros i it Hi. by rewrite Hrows, list_lookup_fmap, Hi.
  - intros i it Hi. eexists. split; [by rewrite Hrows, list_lookup_fmap, Hi|].
    rewrite mirror_checked_text. split; [done|]. split.
    { unfold mirror_checked. by case_bool_decide. }
    split; intros Hin.
    + rewrite (mirror_checked_in _ _ Hin). simpl. apply is_checked_spec.
    + by rewrite (mirror_checked_notin _ _ Hin).
  - intros Hall it' Hin. rewrite Hrows in Hin.
    apply list_elem_of_fmap in Hin as (it & -> & Hin).
    rewrite mirror_checked_is_checked, mirror_checked_in by (by apply Hall). done.
Qed.

Lemma fresh_selector_one_entry_per_label : one_entry_per_label fresh_selector.
Proof.
  split.
  - intros l i Hl. unfold fresh_selector in Hl. simpl in Hl.
    apply lookup_insert_Some in Hl as [[<- <-]|[_ Hl]]; [by eexists|].
    apply lookup_singleton_Some in Hl as [<- <-]. by eexists.
  - intros [|[|i]] it Hi; simpl in Hi; [| |done]; by injection Hi as <-.
Qed.

Lemma ticked_selector_one_entry_per_label : one_entry_per_label ticked_selector.
Proof.
  apply (one_entry_per_label_same_texts fresh_selector); [done|done|].
  apply fresh_selector_one_entry_per_label.
Qed.

Lemma select_checked_mirrors_checkboxes_witness :
  exists w',
    select_checked ticked_selector = (w', Returned) /\
    chunk_cameras (app ticked_selector)
    = Some [cam "A" true "/p/a.jpg"; cam "B" false "/p/b.jpg"] /\
    chunk_cameras (app w')
    = Some [cam "A" false "/p/a.jpg"; cam "B" true "/p/b.jpg"] /\
    list_widget w'
    = [ {| text := "A"; checkState := Unchecked; isSelected := false |};
        {| text := "B"; checkState := Checked; isSelected := true |} ].
Proof.
  destruct (select_checked_mirrors_checkboxes ticked_selector two_cameras eq_refl
              ticked_selector_one_entry_per_label fresh_selector_covers)
    as (w' & cs' & Hrun & _ & Hhost & _ & _ & Hlen & Hlenr & Hflags & Hrows & _).
  exists w'. split; [exact Hrun|]. split; [reflexivity|]. split.
  - rewrite Hhost. f_equal.
    destruct (Hflags 0 _ eq_refl)
      as (c0 & it0 & it0' & H0 & Hl0 & Hp0 & He0 & Hs0 & _).
    destruct (Hflags 1 _ eq_refl)
      as (c1 & it1 & it1' & H1 & Hl1 & Hp1 & He1 & Hs1 & _).
    injection He0 as <-. injection He1 as <-.
    destruct cs' as [|x0 [|x1 [|x2 cs']]]; try discriminate Hlen.
    injection H0 as ->. injection H1 as ->.
    f_equal; [|f_equal]; by apply camera_eq.
  - pose proof (Hrows 0 _ eq_refl) as R0. pose proof (Hrows 1 _ eq_refl) as R1.
    destruct (list_widget w') as [|y0 [|y1 [|y2 l]]]; try discriminate Hlenr.
    injection R0 as ->. injection R1 as ->. reflexivity.
Defined.

(** Why the amended C4 asks for one entry per label: with two rows of the
    same text, un-highlighting the entry lets the reaction to the selection
    change read the other row, and the first camera ends selected although
    its entry is unchecked. *)
Lemma select_checked_shared_label_rows :
  covers shared_label_selector [cam "A" false "/p/a1.jpg"; cam "A" false "/p/a2.jpg"] /\
  chunk_cameras (app (fst (select_checked shared_label_selector)))
  = Some [cam "A" true "/p/a1.jpg"; cam "A" false "/p/a2.jpg"] /\
  entry shared_label_selector "A"
  = Some {| text := "A"; checkState := Unchecked; isSelected := true |}.
Proof.
  split; [|split; reflexivity].
  intros c Hc. apply elem_of_cons in Hc as [->|Hc]; [by eexists|].
  apply elem_of_cons in Hc as [->|Hc]; [by eexists|]. inversion Hc.
Qed.

(** ** Cameras without an entry *)












(** * Further properties *)

(** ** The monitor loop *)

Lemma with_camera_labels_same ls m :
  camera_labels m = Some ls -> with_camera_labels ls m = m.
Proof. destruct m as [o s]. simpl. by intros ->. Qed.

Lemma monitor_poll_stop a m : stop (fst (monitor_poll a m)) = stop m.
Proof.
  unfold monitor_poll. destruct (document a) as [d|]; [|done].
  destruct (chunk d); [|done].
  destruct (camera_labels m) as [[|p prev]|]; try done.
  by case_bool_decide.
Qed.

Lemma monitor_poll_records a m ls :
  chunk_labels a = Some ls -> camera_labels (fst (monitor_poll a m)) = Some ls.
Proof.
  intros Hls. rewrite (monitor_poll_open a m ls Hls).
  destruct (camera_labels m) as [[|p prev]|] eqn:E; try done.
  case_bool_decide as Heq; [|done]. simpl. by rewrite E, Heq.
Qed.

(** X1: one poll never changes the stop flag; with a chunk open it always
    ends holding the label sequence it read, and without one it changes
    nothing; it emits the signal only when a non-empty sequence had been
    observed before and the sequence read differs from it. *)
Theorem monitor_poll_records_and_emits_only_on_change
    (a : Application) (m : CameraMonitor) :
  stop (fst (monitor_poll a m)) = stop m /\
  (chunk_labels a = None -> monitor_poll a m = (m, false)) /\
  (forall ls, chunk_labels a = Some ls ->
     camera_labels (fst (monitor_poll a m)) = Some ls) /\
  (snd (monitor_poll a m) = true ->
     exists previous ls,
       camera_labels m = Some previous /\ previous <> [] /\
       chunk_labels a = Some ls /\ ls <> previous).
Proof.
  split; [apply monitor_poll_stop|]. split; [apply monitor_poll_closed|].
  split; [intros ls; apply monitor_poll_records|].
  destruct (chunk_labels a) as [ls|] eqn:Hls.
  - rewrite (monitor_poll_open a m ls Hls).
    destruct (camera_labels m) as [[|p prev]|]; try done.
    case_bool_decide as Heq; [done|]. intros _.
    exists (p :: prev), ls. by repeat split.
  - by rewrite monitor_poll_closed.
Qed.

Lemma monitor_poll_again a m :
  monitor_poll a (fst (monitor_poll a m)) = (fst (monitor_poll a m), false).
Proof.
  destruct (chunk_labels a) as [ls|] eqn:Hls.
  - rewrite (monitor_poll_open a (fst (monitor_poll a m)) ls Hls).
    rewrite (monitor_poll_records a m ls Hls).
    destruct ls as [|l ls].
    + rewrite with_camera_labels_same; [done|]. by apply monitor_poll_records.
    + by rewrite bool_decide_eq_true_2.
  - by rewrite !monitor_poll_closed.
Qed.

Lemma monitor_cameras_cons a hosts m :
  stop m = false ->
  monitor_cameras (a :: hosts) m
  = (fst (monitor_cameras hosts (fst (monitor_poll a m))),
     snd (monitor_poll a m) :: snd (monitor_cameras hosts (fst (monitor_poll a m)))).
Proof.
  intros Hs. simpl. rewrite Hs. destruct (monitor_poll a m) as [m1 e]. simpl.
  by destruct (monitor_cameras hosts m1).
Qed.

(** X2: while the labels of the host do not change, the monitor emits at
    most once, on its first poll; a monitor that has observed nothing yet
    never emits. *)
Theorem monitor_cameras_steady_host (n : nat) (a : Application) (m : CameraMonitor) :
  stop m = false ->
  snd (monitor_cameras (replicate (S n) a) m)
  = snd (monitor_poll a m) :: replicate n false /\
  (camera_labels m = None ->
   snd (monitor_cameras (replicate (S n) a) m) = replicate (S n) false).
Proof.
  intros Hs.
  assert (Hrest : forall k m1, stop m1 = false -> monitor_poll a m1 = (m1, false) ->
            monitor_cameras (replicate k a) m1 = (m1, replicate k false)).
  { intros k. induction k as [|k IH]; intros m1 Hs1 Hp; [done|].
    change (replicate (S k) a) with (a :: replicate k a).
    rewrite monitor_cameras_cons by done. rewrite Hp. simpl. by rewrite IH. }
  assert (H1 : snd (monitor_cameras (replicate (S n) a) m)
               = snd (monitor_poll a m) :: replicate n false).
  { change (replicate (S n) a) with (a :: replicate n a).
    rewrite monitor_cameras_cons by done. simpl. f_equal.
    rewrite Hrest; [done| |apply monitor_poll_again].
    by rewrite monitor_poll_stop. }
  split; [exact H1|]. intros Hnone. rewrite H1. simpl. f_equal.
  destruct (chunk_labels a) as [ls|] eqn:Hls.
  - by rewrite (monitor_poll_open a m ls Hls), Hnone.
  - by rewrite monitor_poll_closed.
Qed.

Lemma monitor_cameras_steady_host_witness :
  snd (monitor_cameras (replicate 3 (host_of two_cameras))
         {| camera_labels := Some ["A"]; stop := false |})
  = [true; false; false].
Proof.
  exact (proj1 (monitor_cameras_steady_host 2 (host_of two_cameras)
                  {| camera_labels := Some ["A"]; stop := false |} eq_refl)).
Defined.

(** X3: run against hosts that always have a chunk with at least one
    camera, the monitor emits at a poll exactly when the label sequence it
    reads differs from the one of the poll before (for the first poll: from
    the sequence it holds, if any), and it ends holding the last sequence. *)
Theorem monitor_cameras_emits_changes
    (hosts : list Application) (polls : list (list string)) (m : CameraMonitor) :
  stop m = false ->
  camera_labels m <> Some [] ->
  Forall2 (fun a ls => chunk_labels a = Some ls /\ ls <> []) hosts polls ->
  snd (monitor_cameras hosts m) = label_changes (camera_labels m) polls /\
  camera_labels (fst (monitor_cameras hosts m))
  = default (camera_labels m) (Some <$> last polls).
Proof.
  intros Hs Hne Hall. revert m Hs Hne.
  induction Hall as [|a ls hosts polls [Hls Hnil] Hall IH]; intros m Hs Hne; [done|].
  rewrite monitor_cameras_cons by done. simpl.
  destruct (IH (fst (monitor_poll a m))) as [IH1 IH2].
  { by rewrite monitor_poll_stop. }
  { rewrite (monitor_poll_records a m ls Hls). by intros [= ->]. }
  rewrite IH1, IH2, (monitor_poll_records a m ls Hls). split.
  - f_equal. rewrite (monitor_poll_open a m ls Hls).
    destruct (camera_labels m) as [[|p prev]|]; [done| |done].
    case_bool_decide as E; simpl.
    + by rewrite bool_decide_eq_false_2 by (by intros ?).
    + by rewrite bool_decide_eq_true_2.
  - destruct polls as [|ls' polls]; [done|]. rewrite last_cons_cons.
    destruct (last (ls' :: polls)) eqn:E; [done|].
    by apply last_None in E.
Qed.

Lemma monitor_cameras_emits_changes_witness :
  snd (monitor_cameras
         [host_of [cam "A" false "/p/a.jpg"]; host_of two_cameras; host_of two_cameras]
         CameraMonitor_init)
  = [false; true; false].
Proof.
  refine (proj1 (monitor_cameras_emits_changes
            [host_of [cam "A" false "/p/a.jpg"]; host_of two_cameras; host_of two_cameras]
            [["A"]; ["A"; "B"]; ["A"; "B"]]
            CameraMonitor_init eq_refl _ _)).
  - discriminate.
  - repeat constructor; discriminate.
Defined.

(** ** What Pull and Push leave alone, whether they return or raise *)

Lemma check_selected_loop_frame cs w :
  app (fst (check_selected_loop cs w)) = app w /\
  items (fst (check_selected_loop cs w)) = items w /\
  length (list_widget (fst (check_selected_loop cs w))) = length (list_widget w) /\
  forall i it, list_widget w !! i = Some it ->
    list_widget (fst (check_selected_loop cs w)) !! i = Some it \/
    list_widget (fst (check_selected_loop cs w)) !! i
    = Some (item_with_checkState Checked it).
Proof.
  revert w. induction cs as [|c cs IH]; intros w; simpl.
  - repeat split; [by left].
  - destruct (selected c); [|apply IH].
    destruct (items w !! label c) as [i0|]; [|repeat split; by left].
    destruct (IH (setCheckState i0 Checked w)) as (-> & -> & -> & Hrows).
    split; [done|]. split; [done|]. split; [apply length_alter|].
    intros i it Hi. simpl in Hrows.
    destruct (decide (i0 = i)) as [->|Hne].
    + destruct (Hrows i (item_with_checkState Checked it)) as [H|H].
      * by rewrite list_lookup_alter_eq, Hi.
      * by right.
      * by right.
    + apply Hrows. by rewrite list_lookup_alter_ne.
Qed.

(** X4: in every outcome, also when it raises for a missing chunk or a
    missing entry, Pull leaves the host, the entry map and the number of rows
    as they are, and each row is either untouched or differs only by a
    checked checkbox: Pull never unchecks, never highlights and never writes
    to the host. *)
Theorem check_selected_only_checks (w : CameraSelector) :
  app (fst (check_selected w)) = app w /\
  items (fst (check_selected w)) = items w /\
  length (list_widget (fst (check_selected w))) = length (list_widget w) /\
  forall i it, list_widget w !! i = Some it ->
    list_widget (fst (check_selected w)) !! i = Some it \/
    list_widget (fst (check_selected w)) !! i = Some (item_with_checkState Checked it).
Proof.
  unfold check_selected. destruct (chunk_cameras (app w)) as [cs|].
  - apply check_selected_loop_frame.
  - repeat split. by left.
Qed.

Lemma without_selection_set_cameras a cs cs' :
  chunk_cameras a = Some cs ->
  set_selected false <$> cs' = set_selected false <$> cs ->
  without_selection (set_cameras cs' a) = without_selection a.
Proof.
  intros Hcs Heq. unfold without_selection.
  rewrite (chunk_cameras_set_cameras a cs cs' Hcs), Hcs.
  by rewrite set_cameras_twice, Heq.
Qed.

Lemma itemSelectionChanged_without_selection w :
  without_selection (app (itemSelectionChanged w)) = without_selection (app w).
Proof.
  unfold itemSelectionChanged, update_items.
  destruct (chunk_cameras (app w)) as [cs|] eqn:Hcs; [|done]. simpl.
  apply (without_selection_set_cameras _ cs); [done|].
  rewrite <- list_fmap_compose. by apply list_fmap_ext.
Qed.

Lemma camera_set_selected_without_selection k b w :
  without_selection (app (camera_set_selected k b w)) = without_selection (app w).
Proof.
  unfold camera_set_selected.
  destruct (chunk_cameras (app w)) as [cs|] eqn:Hcs; [|done]. simpl.
  apply (without_selection_set_cameras _ cs); [done|].
  by apply fmap_alter_set_selected.
Qed.

Lemma setSelected_without_selection i b w :
  without_selection (app (setSelected i b w)) = without_selection (app w).
Proof.
  unfold setSelected. destruct (list_widget w !! i); [|done].
  case_bool_decide; [done|]. by rewrite itemSelectionChanged_without_selection.
Qed.

Lemma setSelected_rows i b w j it :
  list_widget w !! j = Some it ->
  exists b', list_widget (setSelected i b w) !! j = Some (item_with_selected b' it).
Proof.
  intros Hj. unfold setSelected.
  destruct (list_widget w !! i) as [it0|] eqn:Hi.
  - case_bool_decide.
    + exists (isSelected it). by rewrite item_with_selected_same.
    + rewrite itemSelectionChanged_list. simpl.
      destruct (decide (i = j)) as [->|Hne].
      * exists b. rewrite list_lookup_insert_eq by (by apply lookup_lt_Some in Hj).
        congruence.
      * exists (isSelected it).
        by rewrite list_lookup_insert_ne, item_with_selected_same.
  - exists (isSelected it). by rewrite item_with_selected_same.
Qed.

Lemma select_checked_loop_frame ks w :
  items (fst (select_checked_loop ks w)) = items w /\
  without_selection (app (fst (select_checked_loop ks w))) = without_selection (app w) /\
  forall j it, list_widget w !! j = Some it ->
    exists b, list_widget (fst (select_checked_loop ks w)) !! j
              = Some (item_with_selected b it).
Proof.
  assert (Hid : forall w' j it, list_widget w' !! j = Some it ->
            exists b, list_widget w' !! j = Some (item_with_selected b it)).
  { intros w' j it Hj. exists (isSelected it). by rewrite item_with_selected_same. }
  revert w. induction ks as [|k ks IH]; intros w; simpl.
  - split; [done|]. split; [done|]. apply Hid.
  - destruct (chunk_cameras (app w) ≫= _) as [c|]; [|by repeat split; try apply Hid].
    destruct (items w !! label c) as [i|]; [|by repeat split; try apply Hid].
    destruct (list_widget w !! i) as [it0|]; [|by repeat split; try apply Hid].
    assert (Hstep : forall b,
      items (fst (select_checked_loop ks (setSelected i b (camera_set_selected k b w))))
      = items w /\
      without_selection
        (app (fst (select_checked_loop ks (setSelected i b (camera_set_selected k b w)))))
      = without_selection (app w) /\
      forall j it, list_widget w !! j = Some it ->
        exists b', list_widget
                     (fst (select_checked_loop ks
                             (setSelected i b (camera_set_selected k b w)))) !! j
                   = Some (item_with_selected b' it)).
    { intros b.
      destruct (IH (setSelected i b (camera_set_selected k b w))) as (-> & -> & Hrows).
      rewrite setSelected_items, camera_set_selected_items.
      rewrite setSelected_without_selection, camera_set_selected_without_selection.
      split; [done|]. split; [done|]. intros j it Hj.
      destruct (setSelected_rows i b (camera_set_selected k b w) j it) as [b1 H1].
      { by rewrite camera_set_selected_list. }
      destruct (Hrows j _ H1) as [b2 H2]. by exists b2. }
    destruct (CheckState_eqb _ _); apply Hstep.
Qed.

(** X5: in every outcome, Push and the selection-changed reaction leave the
    entry map alone and change nothing of the host but selection flags (the
    document, its path, the chunk, the cameras' labels and photos stay); Push
    changes nothing of a row but its highlight, and the reaction changes no
    row at all.  Neither ever writes a checkbox. *)
Theorem select_checked_only_selects (w : CameraSelector) :
  (items (fst (select_checked w)) = items w /\
   without_selection (app (fst (select_checked w))) = without_selection (app w) /\
   forall j it, list_widget w !! j = Some it ->
     exists b, list_widget (fst (select_checked w)) !! j = Some (item_with_selected b it)) /\
  (items (fst (update_items w)) = items w /\
   without_selection (app (fst (update_items w))) = without_selection (app w) /\
   list_widget (fst (update_items w)) = list_widget w).
Proof.
  split.
  - unfold select_checked. destruct (chunk_cameras (app w)) as [cs|].
    + apply select_checked_loop_frame.
    + split; [done|]. split; [done|]. intros j it Hj.
      exists (isSelected it). by rewrite item_with_selected_same.
  - split; [apply itemSelectionChanged_items|].
    split; [apply itemSelectionChanged_without_selection|].
    apply itemSelectionChanged_list.
Qed.

(** ** Refresh again *)

Lemma selector_eq (w w' : CameraSelector) :
  app w = app w' -> list_widget w = list_widget w' -> items w = items w' -> w = w'.
Proof. destruct w, w'. simpl. by intros -> -> ->. Qed.

Lemma foldl_add_camera_item_same_labels cs cs' w w' :
  label <$> cs = label <$> cs' ->
  list_widget w = list_widget w' -> items w = items w' ->
  list_widget (foldl add_camera_item w cs) = list_widget (foldl add_camera_item w' cs') /\
  items (foldl add_camera_item w cs) = items (foldl add_camera_item w' cs').
Proof.
  revert cs' w w'. induction cs as [|c cs IH]; intros [|c' cs'] w w' Hl Hrows Hitems;
    try discriminate; [done|].
  injection Hl as Hc Hl. simpl. apply IH; [done| |].
  - rewrite !add_camera_item_eq. simpl. by rewrite Hrows, Hc.
  - rewrite !add_camera_item_eq. simpl. by rewrite Hrows, Hitems, Hc.
Qed.

Lemma update_cameras_same_labels w1 w2 ls :
  chunk_labels (app w1) = Some ls -> chunk_labels (app w2) = Some ls ->
  list_widget (fst (update_cameras w1)) = list_widget (fst (update_cameras w2)) /\
  items (fst (update_cameras w1)) = items (fst (update_cameras w2)).
Proof.
  intros H1 H2.
  destruct (update_cameras_open w1 ls H1) as (cs1 & Hl1 & ->).
  destruct (update_cameras_open w2 ls H2) as (cs2 & Hl2 & ->).
  simpl. apply foldl_add_camera_item_same_labels; [congruence| |done].
  simpl. by rewrite !QListWidget_clear_list.
Qed.

Lemma update_cameras_app w :
  app (fst (update_cameras w)) = app (QListWidget_clear w).
Proof.
  unfold update_cameras. simpl.
  destruct (chunk_cameras (app (QListWidget_clear w))); [|done].
  simpl. by rewrite foldl_add_camera_item_app.
Qed.

Lemma update_cameras_labels w :
  chunk_labels (app (fst (update_cameras w))) = chunk_labels (app w).
Proof. by rewrite update_cameras_app, QListWidget_clear_labels. Qed.

Lemma update_cameras_not_highlighted w :
  existsb isSelected (list_widget (fst (update_cameras w))) = false.
Proof.
  destruct (chunk_labels (app w)) as [ls|] eqn:Hls.
  - destruct (update_cameras_open w ls Hls) as (cs & _ & ->). simpl.
    rewrite foldl_add_camera_item_list. simpl. rewrite QListWidget_clear_list. simpl.
    induction (label <$> cs) as [|l ls' IH]; [done|]. by rewrite fmap_cons.
  - rewrite update_cameras_closed; [done|]. unfold chunk_labels in Hls.
    by destruct (chunk_cameras (app w)).
Qed.

(** X6: Refresh forgets the panel it starts from: on two panels whose
    chunks carry the same label sequence it leaves the same list and the same
    entry map, whatever was checked or highlighted.  A second Refresh right
    after the first changes nothing, neither in the panel nor in the host. *)
Theorem update_cameras_forgets_and_repeats (w1 w2 : CameraSelector) :
  (forall ls, chunk_labels (app w1) = Some ls -> chunk_labels (app w2) = Some ls ->
     list_widget (fst (update_cameras w1)) = list_widget (fst (update_cameras w2)) /\
     items (fst (update_cameras w1)) = items (fst (update_cameras w2))) /\
  update_cameras (fst (update_cameras w1)) = update_cameras w1.
Proof.
  split; [intros ls; apply update_cameras_same_labels|].
  set (w' := fst (update_cameras w1)).
  assert (Hclear : QListWidget_clear w' = with_list [] w').
  { unfold QListWidget_clear. subst w'. by rewrite update_cameras_not_highlighted. }
  destruct (chunk_labels (app w1)) as [ls|] eqn:Hls.
  - assert (Hls' : chunk_labels (app w') = Some ls).
    { subst w'. by rewrite update_cameras_labels. }
    destruct (update_cameras_same_labels w' w1 ls Hls' Hls) as [Hrows Hitems].
    destruct (update_cameras_open w' ls Hls') as (cs' & _ & Hrun').
    destruct (update_cameras_open w1 ls Hls) as (cs1 & _ & Hrun1).
    assert (Happ : app (fst (update_cameras w')) = app w').
    { by rewrite update_cameras_app, Hclear. }
    rewrite (surjective_pairing (update_cameras w')).
    rewrite (surjective_pairing (update_cameras w1)). f_equal.
    + apply selector_eq; [exact Happ|exact Hrows|exact Hitems].
    + by rewrite Hrun', Hrun1.
  - assert (Hc : chunk_cameras (app w1) = None).
    { unfold chunk_labels in Hls. by destruct (chunk_cameras (app w1)). }
    subst w'. rewrite (update_cameras_closed w1 Hc). simpl.
    by rewrite update_cameras_closed.
Qed.

Lemma update_cameras_forgets_and_repeats_witness :
  list_widget (fst (update_cameras selected_selector))
  = list_widget (fst (update_cameras (empty_selector (host_of [cam "A" false "/q/a.jpg"])))).
Proof.
  exact (proj1 (proj1 (update_cameras_forgets_and_repeats selected_selector
           (empty_selector (host_of [cam "A" false "/q/a.jpg"]))) ["A"] eq_refl eq_refl)).
Defined.

Lemma QListWidget_clear_quiet w :
  existsb isSelected (list_widget w) = false -> app (QListWidget_clear w) = app w.
Proof. intros H. unfold QListWidget_clear. by rewrite H. Qed.

(** X7: Refresh writes to the host only through the selection change its
    own clearing of the list causes.  It never changes anything of the host
    but selection flags; with no row highlighted it leaves the host exactly
    as it is; with some row highlighted and a chunk open it leaves every
    camera of the chunk deselected. *)
Theorem update_cameras_host (w : CameraSelector) :
  without_selection (app (fst (update_cameras w))) = without_selection (app w) /\
  (existsb isSelected (list_widget w) = false -> app (fst (update_cameras w)) = app w) /\
  (existsb isSelected (list_widget w) = true ->
   forall cs, chunk_cameras (app w) = Some cs ->
     chunk_cameras (app (fst (update_cameras w))) = Some (set_selected false <$> cs)).
Proof.
  rewrite update_cameras_app. split; [|split].
  - unfold QListWidget_clear. destruct (existsb _ _); [|done].
    by rewrite itemSelectionChanged_without_selection.
  - apply QListWidget_clear_quiet.
  - intros Hsel cs Hcs. unfold QListWidget_clear. rewrite Hsel.
    unfold itemSelectionChanged. rewrite (update_items_open _ cs) by done. simpl.
    by rewrite (chunk_cameras_set_cameras _ cs).
Qed.

Lemma update_cameras_host_witness :
  chunk_cameras (app (fst (update_cameras selected_selector)))
  = Some [cam "A" false "/p/a.jpg"].
Proof.
  exact (proj2 (proj2 (update_cameras_host selected_selector)) eq_refl
           [cam "A" true "/p/a.jpg"] eq_refl).
Defined.

(** ** How the operations compose *)

Lemma clear_selected_eq w :
  clear_selected w
  = (with_list (alter_each (item_with_checkState Unchecked) (map_to_list (items w)).*2
                  (list_widget w)) w, Returned).
Proof. unfold clear_selected. by rewrite foldl_setCheckState. Qed.

(** X8: Clear followed by Pull brings the checkboxes of the entries in line
    with the host: on a panel whose entry map covers the open chunk both
    return, host and entry map are untouched, and every entry ends with its
    text and highlight as before and its checkbox checked if it is the entry
    of a camera the host marks selected and unchecked otherwise. *)
Theorem clear_then_check_selected (w : CameraSelector) (cs : list Camera) :
  chunk_cameras (app w) = Some cs ->
  covers w cs ->
  exists w2,
    check_selected (fst (clear_selected w)) = (w2, Returned) /\
    app w2 = app w /\
    items w2 = items w /\
    forall i it, list_widget w !! i = Some it -> is_entry w i ->
      (pulled w cs i ->
       list_widget w2 !! i
       = Some {| text := text it; checkState := Checked; isSelected := isSelected it |}) /\
      (~ pulled w cs i ->
       list_widget w2 !! i
       = Some {| text := text it; checkState := Unchecked; isSelected := isSelected it |}).
Proof.
  intros Hcs Hcov. rewrite clear_selected_eq. simpl.
  unfold check_selected. simpl. rewrite Hcs.
  rewrite check_selected_loop_covered by (intros c Hc _; by apply Hcov).
  eexists. split; [done|]. simpl. split; [done|]. split; [done|].
  intros i it Hi He.
  rewrite !alter_each_lookup by apply item_with_checkState_idemp.
  rewrite Hi. simpl.
  rewrite (decide_True (P := i ∈ (map_to_list (items w)).*2))
    by (by apply elem_of_entry_rows).
  split; intros Hp.
  - rewrite decide_True; [done|]. by apply (elem_of_pull_rows w).
  - rewrite decide_False; [done|]. by rewrite (elem_of_pull_rows w).
Qed.

Lemma clear_then_check_selected_witness :
  exists w2,
    check_selected (fst (clear_selected ticked_selector)) = (w2, Returned) /\
    list_widget ticked_selector
    = [ {| text := "A"; checkState := Unchecked; isSelected := false |};
        {| text := "B"; checkState := Checked; isSelected := false |} ] /\
    list_widget w2 !! 0
    = Some {| text := "A"; checkState := Checked; isSelected := false |} /\
    list_widget w2 !! 1
    = Some {| text := "B"; checkState := Unchecked; isSelected := false |}.
Proof.
  destruct (clear_then_check_selected ticked_selector two_cameras eq_refl
              fresh_selector_covers) as (w2 & Hrun & _ & _ & Hrows).
  exists w2. split; [exact Hrun|]. split; [reflexivity|]. split.
  - apply (Hrows 0 _ eq_refl); [by exists "A"|].
    exists (cam "A" true "/p/a.jpg"). split; [by left|]. split; reflexivity.
  - apply (Hrows 1 _ eq_refl); [by exists "B"|].
    intros (c & Hc & Hs & Hi).
    apply elem_of_cons in Hc as [->|Hc]; [discriminate Hi|].
    apply elem_of_cons in Hc as [->|Hc]; [discriminate Hs|]. inversion Hc.
Defined.

Lemma covers_same_labels w w' (cs cs' : list Camera) :
  items w' = items w -> label <$> cs' = label <$> cs -> covers w cs -> covers w' cs'.
Proof.
  intros Hitems Hlab Hcov c' Hc'.
  apply list_elem_of_lookup in Hc' as [k Hk].
  destruct (lookup_same_labels cs' cs k c' Hlab Hk) as (c & Hc & Hl).
  rewrite Hitems, <- Hl. apply Hcov. by eapply list_elem_of_lookup_2.
Qed.

Lemma entry_covered w cs c :
  items_live w -> covers w cs -> c ∈ cs ->
  exists i it, items w !! label c = Some i /\ list_widget w !! i = Some it /\
    text it = label c /\ entry w (label c) = Some it.
Proof.
  intros Hlive Hcov Hc. destruct (Hcov c Hc) as [i Hi].
  destruct (Hlive _ _ Hi) as (it & Hit & Ht).
  exists i, it. repeat split; try done. unfold entry. by rewrite Hi.
Qed.

(** After Push, the flag of every camera is the highlight of its entry, so
    the reaction to a selection change finds nothing to do. *)
Lemma select_checked_then_update_items w cs w' :
  chunk_cameras (app w) = Some cs ->
  items_live w -> rows_keyed w -> covers w cs ->
  select_checked w = (w', Returned) ->
  update_items w' = (w', Returned).
Proof.
  intros Hcs Hlive Hkeyed Hcov Hrun.
  destruct (select_checked_covered w cs Hcs Hlive Hkeyed Hcov)
    as (w1 & cs' & Hrun1 & Happ & Hitems & Hrows & Hlab & Hph & Hsel).
  rewrite Hrun in Hrun1. injection Hrun1 as <-.
  assert (Hcs' : chunk_cameras (app w') = Some cs').
  { rewrite Happ. by apply (chunk_cameras_set_cameras _ cs). }
  rewrite (update_items_open w' cs' Hcs'). f_equal.
  assert (Hmark : (fun camera => set_selected
             (bool_decide (label camera ∈ text <$> selectedItems w')) camera) <$> cs' = cs').
  { rewrite <- (list_fmap_id cs') at 2. apply list_fmap_ext. intros k c' Hk.
    destruct (lookup_same_labels cs' cs k c' Hlab Hk) as (c & Hc & Hl).
    destruct (entry_covered w cs c Hlive Hcov) as (i & it & _ & _ & _ & He);
      [by eapply list_elem_of_lookup_2|].
    unfold selectedItems. rewrite Hrows.
    rewrite (selected_texts_mirror w (label <$> cs) (label c') it); try done.
    - rewrite <- (Hsel k c' it Hk) by (by rewrite <- Hl). simpl.
      by apply camera_eq.
    - rewrite <- Hl. apply list_elem_of_fmap_2. by eapply list_elem_of_lookup_2.
    - by rewrite <- Hl. }
  rewrite Hmark. rewrite (set_cameras_id _ cs' Hcs'). by destruct w'.
Qed.

Lemma cameras_eq (cs cs' : list Camera) :
  label <$> cs = label <$> cs' ->
  photo <$> cs = photo <$> cs' ->
  (forall k c c', cs !! k = Some c -> cs' !! k = Some c' -> selected c = selected c') ->
  cs = cs'.
Proof.
  revert cs'. induction cs as [|c cs IH]; intros [|c' cs'] Hl Hp Hs;
    try discriminate; [done|].
  injection Hl as Hl1 Hl. injection Hp as Hp1 Hp. f_equal.
  - apply camera_eq; [done| |done]. by apply (Hs 0).
  - apply IH; [done|done|]. intros k. apply (Hs (S k)).
Qed.

Lemma mirror_checked_twice D it :
  mirror_checked D (mirror_checked D it) = mirror_checked D it.
Proof.
  destruct (decide (text it ∈ D)) as [H|H].
  - rewrite (mirror_checked_in D it H). by rewrite mirror_checked_in.
  - by rewrite !(mirror_checked_notin D it H).
Qed.

Lemma select_checked_twice w cs w' :
  chunk_cameras (app w) = Some cs ->
  items_live w -> rows_keyed w -> covers w cs ->
  select_checked w = (w', Returned) ->
  select_checked w' = (w', Returned).
Proof.
  intros Hcs Hlive Hkeyed Hcov Hrun.
  destruct (select_checked_covered w cs Hcs Hlive Hkeyed Hcov)
    as (w1 & cs' & Hrun1 & Happ & Hitems & Hrows & Hlab & Hph & Hsel).
  rewrite Hrun in Hrun1. injection Hrun1 as <-.
  assert (Hcs' : chunk_cameras (app w') = Some cs').
  { rewrite Happ. by apply (chunk_cameras_set_cameras _ cs). }
  destruct (one_entry_per_label_same_texts w w') as [Hlive' Hkeyed']; [done| |done|].
  { rewrite Hrows, <- list_fmap_compose. apply list_fmap_ext.
    intros i it _. apply mirror_checked_text. }
  assert (Hcov' : covers w' cs') by (by apply (covers_same_labels w w' cs cs')).
  destruct (select_checked_covered w' cs' Hcs' Hlive' Hkeyed' Hcov')
    as (w2 & cs2 & Hrun2 & Happ2 & Hitems2 & Hrows2 & Hlab2 & Hph2 & Hsel2).
  rewrite Hrun2. f_equal.
  assert (Hcs2 : cs2 = cs').
  { apply cameras_eq; [done|done|]. intros k c2 c' Hk2 Hk'.
    destruct (lookup_same_labels cs' cs k c' Hlab Hk') as (c & Hc & Hl).
    destruct (entry_covered w cs c Hlive Hcov) as (i & it & Hi & Hit & Ht & He);
      [by eapply list_elem_of_lookup_2|].
    assert (Hl2 : label c2 = label c).
    { destruct (lookup_same_labels cs2 cs' k c2 Hlab2 Hk2) as (c0 & Hc0 & Hl0).
      congruence. }
    rewrite (Hsel k c' it Hk') by (by rewrite <- Hl).
    rewrite (Hsel2 k c2 (mirror_checked (label <$> cs) it) Hk2).
    - apply mirror_checked_is_checked.
    - unfold entry. rewrite Hl2, Hitems, Hi. simpl.
      by rewrite Hrows, list_lookup_fmap, Hit. }
  apply selector_eq; [|  |done].
  - rewrite Happ2, Hcs2. by apply set_cameras_id.
  - rewrite Hrows2, Hrows, <- list_fmap_compose. apply list_fmap_ext.
    intros i it _. simpl.
    rewrite (mirror_checked_ext (label <$> cs') (label <$> cs)) by (by rewrite Hlab).
    apply mirror_checked_twice.
Qed.

(** X9: on a panel with one entry per label whose map covers the open
    chunk, Push reaches a state that is stable: the reaction to a selection
    change leaves it exactly as it is, and so does a second Push.  The host
    selection and the highlight agree after Push. *)
Theorem select_checked_is_stable (w : CameraSelector) (cs : list Camera) :
  chunk_cameras (app w) = Some cs ->
  one_entry_per_label w ->
  covers w cs ->
  exists w',
    select_checked w = (w', Returned) /\
    update_items w' = (w', Returned) /\
    select_checked w' = (w', Returned).
Proof.
  intros Hcs [Hlive Hkeyed] Hcov.
  destruct (select_checked_covered w cs Hcs Hlive Hkeyed Hcov) as (w' & cs' & Hrun & _).
  exists w'. split; [done|]. split.
  - by apply (select_checked_then_update_items w cs).
  - by apply (select_checked_twice w cs).
Qed.

Lemma select_checked_is_stable_witness :
  exists w',
    select_checked fresh_selector = (w', Returned) /\
    update_items w' = (w', Returned) /\
    select_checked w' = (w', Returned).
Proof.
  exact (select_checked_is_stable fresh_selector two_cameras eq_refl
           fresh_selector_one_entry_per_label fresh_selector_covers).
Defined.

Lemma check_selected_covered_eq w cs :
  chunk_cameras (app w) = Some cs -> covers w cs ->
  check_selected w
  = (with_list (alter_each (item_with_checkState Checked) (pull_rows (items w) cs)
                  (list_widget w)) w, Returned).
Proof.
  intros Hcs Hcov. unfold check_selected. rewrite Hcs.
  apply check_selected_loop_covered. intros c Hc _. by apply Hcov.
Qed.

(** X10: Pull followed by Push never deselects: on a panel with one entry
    per label whose map covers the open chunk, both return, and afterwards a
    camera is selected in the host exactly when its entry was checked before
    or some camera with its label was selected before; so every camera that
    was selected still is. *)
Theorem check_selected_then_select_checked (w : CameraSelector) (cs : list Camera) :
  chunk_cameras (app w) = Some cs ->
  one_entry_per_label w ->
  covers w cs ->
  exists w1 w2 cs2,
    check_selected w = (w1, Returned) /\
    select_checked w1 = (w2, Returned) /\
    chunk_cameras (app w2) = Some cs2 /\
    forall k c, cs !! k = Some c ->
      exists c2 it,
        cs2 !! k = Some c2 /\ label c2 = label c /\ photo c2 = photo c /\
        entry w (label c) = Some it /\
        (selected c2 = true <->
         is_checked it = true \/
         exists c', c' ∈ cs /\ label c' = label c /\ selected c' = true) /\
        (selected c = true -> selected c2 = true).
Proof.
  intros Hcs [Hlive Hkeyed] Hcov.
  rewrite (check_selected_covered_eq w cs Hcs Hcov).
  set (w1 := with_list _ w).
  destruct (one_entry_per_label_same_texts w w1) as [Hlive1 Hkeyed1]; [done| |done|].
  { pose proof (check_selected_loop_texts cs w) as [_ Ht].
    rewrite check_selected_loop_covered in Ht by (intros c Hc _; by apply Hcov).
    exact Ht. }
  destruct (select_checked_covered w1 cs Hcs Hlive1 Hkeyed1 Hcov)
    as (w2 & cs2 & Hrun2 & Happ2 & Hitems2 & Hrows2 & Hlab2 & Hph2 & Hsel2).
  exists w1, w2, cs2. split; [done|]. split; [done|]. split.
  { rewrite Happ2. by apply (chunk_cameras_set_cameras _ cs). }
  intros k c Hc.
  destruct (lookup_same_labels cs cs2 k c (eq_sym Hlab2) Hc) as (c2 & Hc2 & Hl2).
  destruct (entry_covered w cs c Hlive Hcov) as (i & it & Hi & Hit & Ht & He);
    [by eapply list_elem_of_lookup_2|].
  exists c2, it. split; [done|]. split; [done|]. split.
  { assert (H : (photo <$> cs2) !! k = (photo <$> cs) !! k) by (by rewrite Hph2).
    rewrite !list_lookup_fmap, Hc, Hc2 in H. by injection H. }
  split; [done|].
  assert (Hpulled : pulled w cs i <->
            exists c', c' ∈ cs /\ label c' = label c /\ selected c' = true).
  { split.
    - intros (c' & Hin & Hs & Hi'). exists c'. split; [done|]. split; [|done].
      destruct (Hlive _ _ Hi') as (it' & Hit' & Ht'). congruence.
    - intros (c' & Hin & Hl & Hs). exists c'. split; [done|]. split; [done|].
      by rewrite Hl. }
  assert (Hit1 : list_widget w1 !! i
                 = Some (if decide (i ∈ pull_rows (items w) cs)
                         then item_with_checkState Checked it else it)).
  { subst w1. simpl. rewrite alter_each_lookup by apply item_with_checkState_idemp.
    rewrite Hit. by case_decide. }
  assert (Hiff : selected c2 = true <->
            is_checked it = true \/
            exists c', c' ∈ cs /\ label c' = label c /\ selected c' = true).
  { rewrite (Hsel2 k c2 (if decide (i ∈ pull_rows (items w) cs)
                         then item_with_checkState Checked it else it) Hc2); cycle 1.
    { unfold entry. rewrite Hl2. subst w1. simpl. rewrite Hi. simpl. exact Hit1. }
    rewrite <- Hpulled, <- (elem_of_pull_rows w).
    case_decide as Hp; [|tauto]. split; [by right|done]. }
  split; [exact Hiff|]. intros Hs. apply Hiff. right.
  exists c. split; [by eapply list_elem_of_lookup_2|done].
Qed.

Lemma check_selected_then_select_checked_witness :
  exists w1 w2 cs2,
    check_selected fresh_selector = (w1, Returned) /\
    select_checked w1 = (w2, Returned) /\
    chunk_cameras (app w2) = Some cs2 /\
    exists c2, cs2 !! 0 = Some c2 /\ selected c2 = true.
Proof.
  destruct (check_selected_then_select_checked fresh_selector two_cameras eq_refl
              fresh_selector_one_entry_per_label fresh_selector_covers)
    as (w1 & w2 & cs2 & H1 & H2 & H3 & Hall).
  exists w1, w2, cs2. split; [exact H1|]. split; [exact H2|]. split; [exact H3|].
  destruct (Hall 0 (cam "A" true "/p/a.jpg") eq_refl)
    as (c2 & it & Hc2 & _ & _ & _ & _ & Hkeep).
  exists c2. split; [exact Hc2|]. apply Hkeep. reflexivity.
Defined.

Lemma item_with_checkState_same it : item_with_checkState (checkState it) it = it.
Proof. by destruct it. Qed.

(** X11: Push followed by Pull is a round trip when no checkbox is
    partially checked: on a panel with one entry per label whose map covers
    the open chunk, Pull after Push returns and changes nothing, since every
    camera Push selected has a checked entry already. *)
Theorem select_checked_then_check_selected (w : CameraSelector) (cs : list Camera) :
  chunk_cameras (app w) = Some cs ->
  one_entry_per_label w ->
  covers w cs ->
  (forall it, it ∈ list_widget w -> checkState it <> PartiallyChecked) ->
  exists w',
    select_checked w = (w', Returned) /\
    check_selected w' = (w', Returned).
Proof.
  intros Hcs [Hlive Hkeyed] Hcov Hnp.
  destruct (select_checked_covered w cs Hcs Hlive Hkeyed Hcov)
    as (w' & cs' & Hrun & Happ & Hitems & Hrows & Hlab & Hph & Hsel).
  exists w'. split; [done|].
  assert (Hcs' : chunk_cameras (app w') = Some cs').
  { rewrite Happ. by apply (chunk_cameras_set_cameras _ cs). }
  assert (Hcov' : covers w' cs') by (by apply (covers_same_labels w w' cs cs')).
  rewrite (check_selected_covered_eq w' cs' Hcs' Hcov'). f_equal.
  apply selector_eq; [done| |done]. simpl.
  apply list_eq. intros i.
  rewrite alter_each_lookup by apply item_with_checkState_idemp.
  case_decide as Hp; [|done].
  apply (elem_of_pull_rows w') in Hp as (c' & Hin & Hs & Hi).
  rewrite Hitems in Hi.
  destruct (Hlive _ _ Hi) as (it & Hit & Ht).
  apply list_elem_of_lookup in Hin as [k Hk].
  assert (He : entry w (label c') = Some it) by (unfold entry; by rewrite Hi).
  rewrite (Hsel k c' it Hk He) in Hs.
  rewrite Hrows, list_lookup_fmap, Hit. simpl. f_equal.
  assert (Hck : checkState (mirror_checked (label <$> cs) it) = Checked).
  { assert (checkState (mirror_checked (label <$> cs) it) = checkState it) as ->.
    { unfold mirror_checked. by case_bool_decide. }
    apply is_checked_spec in Hs.
    assert (checkState it <> PartiallyChecked).
    { apply Hnp. by eapply list_elem_of_lookup_2. }
    by destruct (checkState it). }
  rewrite <- Hck at 1. apply item_with_checkState_same.
Qed.

Lemma select_checked_then_check_selected_witness :
  exists w',
    select_checked fresh_selector = (w', Returned) /\
    check_selected w' = (w', Returned).
Proof.
  apply (select_checked_then_check_selected fresh_selector two_cameras eq_refl
           fresh_selector_one_entry_per_label fresh_selector_covers).
  intros it Hit. apply elem_of_cons in Hit as [->|Hit]; [discriminate|].
  apply elem_of_cons in Hit as [->|Hit]; [discriminate|]. inversion Hit.
Defined.

(** ** Export again *)

Section ExportAgain.

Variable get_camera : option Chunk -> string -> option Camera.
Variable default_export_path : string -> string.
Variable getSaveFileName : string -> string.
Variable selection_order : list nat -> list nat.
Variable open_succeeds : string -> bool.

Lemma export_cameras_no_document w fs :
  document (app w) = None ->
  export_cameras get_camera default_export_path getSaveFileName
    selection_order open_succeeds w fs
  = (fs, Raised AttributeError).
Proof.
  intros Hd. unfold export_cameras.
  destruct (text <$> selectedItems_in_order selection_order w) as [|l ls];
    simpl; by rewrite Hd.
Qed.

End ExportAgain.

(** X12: Export replaces, it does not append: exporting again with the same
    selection and the same answer of the prompt gives the outcome and the
    files of the first export.  Export never touches a file other than the
    one the prompt answers.  With no document open it raises an
    AttributeError and leaves every file as it is, also when nothing is
    highlighted, since the proposed file name is computed from the document
    before the prompt is shown. *)
Theorem export_cameras_overwrites_destination_only
    (get_camera : option Chunk -> string -> option Camera)
    (default_export_path getSaveFileName : string -> string)
    (selection_order : list nat -> list nat) (open_succeeds : string -> bool)
    (w : CameraSelector) (fs : gmap string string) :
  export_cameras get_camera default_export_path getSaveFileName
    selection_order open_succeeds w
    (fst (export_cameras get_camera default_export_path getSaveFileName
            selection_order open_succeeds w fs))
  = export_cameras get_camera default_export_path getSaveFileName
      selection_order open_succeeds w fs /\
  (forall p,
     (forall d, document (app w) = Some d ->
        p <> getSaveFileName (default_export_path (doc_path d))) ->
     fst (export_cameras get_camera default_export_path getSaveFileName
            selection_order open_succeeds w fs) !! p
     = fs !! p) /\
  (document (app w) = None ->
   export_cameras get_camera default_export_path getSaveFileName
     selection_order open_succeeds w fs
   = (fs, Raised AttributeError)).
Proof.
  split; [|split; [|apply export_cameras_no_document]].
  - destruct (document (app w)) as [d|] eqn:Hd.
    + destruct (decide (getSaveFileName (default_export_path (doc_path d)) = ""))
        as [Hp|Hp].
      * by rewrite !(export_cameras_cancelled _ _ _ _ _ w _ d Hd Hp).
      * destruct (open_succeeds (getSaveFileName (default_export_path (doc_path d))))
          eqn:Ho.
        -- rewrite !(export_cameras_confirmed _ _ _ _ _ w _ d Hd Hp Ho). simpl.
           by rewrite insert_insert_eq.
        -- by rewrite !(export_cameras_open_fails _ _ _ _ _ w _ d Hd Hp Ho).
    + by rewrite !export_cameras_no_document.
  - intros p Hne. destruct (document (app w)) as [d|] eqn:Hd.
    + destruct (decide (getSaveFileName (default_export_path (doc_path d)) = ""))
        as [Hp|Hp].
      * by rewrite (export_cameras_cancelled _ _ _ _ _ w _ d Hd Hp).
      * destruct (open_succeeds (getSaveFileName (default_export_path (doc_path d))))
          eqn:Ho.
        -- rewrite (export_cameras_confirmed _ _ _ _ _ w _ d Hd Hp Ho). simpl.
           rewrite lookup_insert_ne; [done|]. intros E. by apply (Hne d).
        -- by rewrite (export_cameras_open_fails _ _ _ _ _ w _ d Hd Hp Ho).
    + by rewrite export_cameras_no_document.
Qed.

Lemma export_cameras_overwrites_destination_only_witness :
  export_cameras find_camera (fun _ => "/proj/cameras.csv") (fun _ => "/out/cameras.csv")
    (fun rows => rows) (fun _ => true)
    (empty_selector {| document := None |}) {[ "/out/cameras.csv" := "old" ]}
  = ({[ "/out/cameras.csv" := "old" ]}, Raised AttributeError).
Proof.
  exact (proj2 (proj2 (export_cameras_overwrites_destination_only find_camera
           (fun _ => "/proj/cameras.csv") (fun _ => "/out/cameras.csv")
           (fun rows => rows) (fun _ => true)
           (empty_selector {| document := None |}) {[ "/out/cameras.csv" := "old" ]}))
           eq_refl).
Defined.

(** X13: Export reads the highlight, not the checkboxes: its outcome and the
    files it leaves are the same whatever the checkbox of any row is. *)
Theorem export_cameras_ignores_checkboxes
    (get_camera : option Chunk -> string -> option Camera)
    (default_export_path getSaveFileName : string -> string)
    (selection_order : list nat -> list nat) (open_succeeds : string -> bool)
    (w : CameraSelector) (fs : gmap string string)
    (f : QListWidgetItem -> CheckState) :
  export_cameras get_camera default_export_path getSaveFileName
    selection_order open_succeeds
    (with_list ((fun it => item_with_checkState (f it) it) <$> list_widget w) w) fs
  = export_cameras get_camera default_export_path getSaveFileName
      selection_order open_succeeds w fs.
Proof.
  unfold export_cameras. by rewrite selectedItems_in_order_ignores_checkState.
Qed.

(** ** Opening the panel *)

(** X14: find_main_window answers the first top-level widget that is a main
    window: the widget at the position it returns is a main window and none
    before it is; it answers None exactly when no top-level widget is a main
    window. *)
Theorem find_main_window_first (topLevelWidgets : list QWidget) :
  (forall i, find_main_window topLevelWidgets = Some i ->
     (exists mw, topLevelWidgets !! i = Some (MainWindow mw)) /\
     forall j, j < i -> exists n, topLevelWidgets !! j = Some (OtherWidget n)) /\
  (find_main_window topLevelWidgets = None <->
   forall mw, MainWindow mw ∉ topLevelWidgets).
Proof.
  induction topLevelWidgets as [|wd ws [IH1 IH2]]; simpl.
  - split; [done|]. split; [|done]. intros _ mw H. inversion H.
  - destruct wd as [mw|n].
    + split.
      * intros i [= <-]. split; [by exists mw|]. intros j Hj. lia.
      * split; [done|]. intros H. destruct (H mw). by left.
    + split.
      * intros i Hi. destruct (find_main_window ws) as [i'|]; [|done].
        injection Hi as <-. destruct (IH1 i' eq_refl) as [Hmw Hbefore].
        split; [done|]. intros [|j] Hj; [by exists n|]. apply Hbefore. lia.
      * rewrite fmap_None, IH2. split.
        -- intros H mw [E|E]%elem_of_cons; [done|by apply (H mw)].
        -- intros H mw Hin. apply (H mw). by right.
Qed.

Lemma find_main_window_is_main_window (ws : list QWidget) i :
  find_main_window ws = Some i -> exists mw, ws !! i = Some (MainWindow mw).
Proof.
  revert i. induction ws as [|[mw|n] ws IH]; intros i Hi; simpl in Hi; [done| |].
  - injection Hi as <-. by exists mw.
  - destruct (find_main_window ws) as [i'|]; [|done]. injection Hi as <-.
    by apply IH.
Qed.

Lemma CameraSelector_init_open a cs :
  chunk_cameras a = Some cs ->
  exists w,
    CameraSelector_init a = (w, Returned) /\
    app w = a /\
    list_widget w = unchecked_item <$> (label <$> cs).
Proof.
  intros Hcs. unfold CameraSelector_init.
  set (w0 := {| app := a; list_widget := []; items := ∅ |}).
  destruct (update_cameras_open w0 (label <$> cs)) as (cs1 & Hl & Hrun).
  { unfold chunk_labels. simpl. by rewrite Hcs. }
  eexists. split; [exact Hrun|]. split.
  - rewrite foldl_add_camera_item_app. done.
  - rewrite foldl_add_camera_item_list. simpl. by rewrite Hl.
Qed.

(** X15: add_to_dock succeeds exactly when a chunk is open and some
    top-level widget is a main window.  It then attaches one more dock to the
    first main window, after the docks that window already has: at the left,
    titled Select Cameras, not floating, holding a panel that lists the
    cameras of the chunk unchecked; the host and the other widgets are as
    before.  In every other case it raises an AttributeError. *)
Theorem add_to_dock_attaches_panel (a : Application) (topLevelWidgets : list QWidget) :
  (chunk_cameras a = None \/ find_main_window topLevelWidgets = None ->
   add_to_dock a topLevelWidgets = inl AttributeError) /\
  (forall cs i, chunk_cameras a = Some cs -> find_main_window topLevelWidgets = Some i ->
     exists mw w,
       topLevelWidgets !! i = Some (MainWindow mw) /\
       app w = a /\
       list_widget w = unchecked_item <$> (label <$> cs) /\
       add_to_dock a topLevelWidgets
       = inr (<[i := MainWindow
                       {| dockWidgets := dockWidgets mw ++
                            [(LeftDockWidgetArea,
                              {| windowTitle := "Select Cameras";
                                 widget := w; isFloating := false |})] |}]>
                topLevelWidgets)).
Proof.
  split.
  - intros H. unfold add_to_dock, CameraSelectorDock_init.
    destruct (chunk_cameras a) as [cs|] eqn:Hcs.
    + destruct H as [H|H]; [done|].
      destruct (CameraSelector_init_open a cs Hcs) as (w & -> & _). by rewrite H.
    + unfold CameraSelector_init. by rewrite update_cameras_closed.
  - intros cs i Hcs Hi.
    destruct (find_main_window_is_main_window topLevelWidgets i Hi) as [mw Hmw].
    destruct (CameraSelector_init_open a cs Hcs) as (w & Hrun & Happ & Hrows).
    exists mw, w. split; [done|]. split; [done|]. split; [done|].
    unfold add_to_dock, CameraSelectorDock_init. rewrite Hrun, Hi. f_equal.
    apply list_eq. intros j. destruct (decide (i = j)) as [<-|Hne].
    + rewrite list_lookup_alter_eq, Hmw.
      by rewrite list_lookup_insert_eq by (by apply lookup_lt_Some in Hmw).
    + by rewrite list_lookup_alter_ne, list_lookup_insert_ne.
Qed.

Lemma add_to_dock_attaches_panel_witness :
  exists w,
    add_to_dock (host_of two_cameras)
      [OtherWidget "console"; MainWindow {| dockWidgets := [] |}]
    = inr [OtherWidget "console";
           MainWindow {| dockWidgets :=
             [(LeftDockWidgetArea,
               {| windowTitle := "Select Cameras"; widget := w; isFloating := false |})] |}] /\
    list_widget w = [unchecked_item "A"; unchecked_item "B"].
Proof.
  destruct (proj2 (add_to_dock_attaches_panel (host_of two_cameras)
                     [OtherWidget "console"; MainWindow {| dockWidgets := [] |}])
              two_cameras 1 eq_refl eq_refl) as (mw & w & Hmw & _ & Hrows & Hrun).
  injection Hmw as <-. exists w. split; [exact Hrun|exact Hrows].
Defined.

(** ** The panel at work *)

Lemma chunk_labels_without_selection a :
  chunk_labels (without_selection a) = chunk_labels a.
Proof.
  unfold without_selection, chunk_labels.
  destruct (chunk_cameras a) as [cs|] eqn:Hcs; [|by rewrite Hcs].
  rewrite (chunk_cameras_set_cameras a cs _ Hcs). simpl. f_equal.
  rewrite <- list_fmap_compose. by apply list_fmap_ext.
Qed.

Lemma same_labels_without_selection a a' :
  without_selection a' = without_selection a -> chunk_labels a' = chunk_labels a.
Proof.
  intros H. rewrite <- (chunk_labels_without_selection a'), H.
  apply chunk_labels_without_selection.
Qed.

Lemma check_selected_app w : app (fst (check_selected w)) = app w.
Proof.
  unfold check_selected. destruct (chunk_cameras (app w)) as [cs|]; [|done].
  apply check_selected_loop_frame.
Qed.

Lemma select_checked_without_selection w :
  without_selection (app (fst (select_checked w))) = without_selection (app w).
Proof.
  unfold select_checked. destruct (chunk_cameras (app w)) as [cs|]; [|done].
  apply select_checked_loop_frame.
Qed.

Lemma update_cameras_without_selection w :
  without_selection (app (fst (update_cameras w))) = without_selection (app w).
Proof.
  rewrite update_cameras_app. unfold QListWidget_clear.
  destruct (existsb _ _); [|done]. by rewrite itemSelectionChanged_without_selection.
Qed.

Lemma update_cameras_one_entry_per_label w :
  distinct_labels (app w) -> one_entry_per_label (fst (update_cameras w)).
Proof.
  intros Hd. destruct (chunk_cameras (app w)) as [cs|] eqn:Hcs.
  - destruct (update_cameras_open w (label <$> cs)) as (cs1 & Hl & Hrun).
    { unfold chunk_labels. by rewrite Hcs. }
    apply (update_cameras_keyed w cs); [done| |by rewrite Hrun].
    apply Hd. unfold chunk_labels. by rewrite Hcs.
  - rewrite update_cameras_closed by done. simpl. split.
    + intros l i. simpl. by rewrite lookup_empty.
    + intros i it. by simpl.
Qed.

Lemma user_selects_frame rows w :
  items (user_selects rows w) = items w /\
  text <$> list_widget (user_selects rows w) = text <$> list_widget w /\
  without_selection (app (user_selects rows w)) = without_selection (app w).
Proof.
  unfold user_selects. case_bool_decide; [done|].
  rewrite itemSelectionChanged_items, itemSelectionChanged_list,
    itemSelectionChanged_without_selection. simpl.
  split; [done|]. split; [|done].
  apply list_eq. intros i. rewrite !list_lookup_fmap, list_lookup_imap.
  by destruct (list_widget w !! i).
Qed.

Section PanelAtWork.

Variable get_camera : option Chunk -> string -> option Camera.
Variable default_export_path : string -> string.
Variable getSaveFileName : string -> string.
Variable selection_order : list nat -> list nat.
Variable open_succeeds : string -> bool.

Lemma click_cases button x :
  click get_camera default_export_path getSaveFileName
        selection_order open_succeeds button x = x \/
  exists callback,
    In (button, callback) (buttons get_camera default_export_path getSaveFileName
          selection_order open_succeeds) /\
    click get_camera default_export_path getSaveFileName
          selection_order open_succeeds button x = fst (callback x).
Proof.
  unfold click.
  destruct (List.find _ _) as [[l callback]|] eqn:Hfind; [|by left].
  right. exists callback. apply find_some in Hfind as [Hin Hl].
  apply bool_decide_eq_true in Hl. simpl in Hl. subst l. by split.
Qed.

Lemma buttons_cases button callback :
  In (button, callback) (buttons get_camera default_export_path getSaveFileName
        selection_order open_succeeds) ->
  (button = "Add Selected" /\ callback = on_panel check_selected) \/
  (button = "Select Checked" /\ callback = on_panel select_checked) \/
  (button = "Clear" /\ callback = on_panel clear_selected) \/
  (button = "Update Cameras" /\ callback = on_panel update_cameras) \/
  (button = "Export" /\
   callback = on_files get_camera default_export_path getSaveFileName
         selection_order open_succeeds).
Proof.
  intros [H|[H|[H|[H|[H|[]]]]]]; injection H as <- <-; tauto.
Qed.

(** The state the events keep: one entry per label, over a host with
    distinct labels. *)
Lemma handle_keeps_one_entry_per_label e x :
  (forall a, e = HostBecomes a -> distinct_labels a) ->
  one_entry_per_label (panel x) /\ distinct_labels (app (panel x)) ->
  one_entry_per_label
    (panel (handle get_camera default_export_path getSaveFileName
          selection_order open_succeeds e x)) /\
  distinct_labels
    (app (panel (handle get_camera default_export_path getSaveFileName
          selection_order open_succeeds e x))).
Proof.
  intros He [Hwf Hd].
  assert (Hlabels : forall w', chunk_labels (app w') = chunk_labels (app (panel x)) ->
            distinct_labels (app w')).
  { intros w' Hl ls Hls. apply Hd. by rewrite <- Hl. }
  destruct e as [button|i s|rows|a]; simpl.
  - destruct (click_cases button x) as [->|(callback & Hin & ->)]; [done|].
    apply buttons_cases in Hin
      as [[_ ->]|[[_ ->]|[[_ ->]|[[_ ->]|[_ ->]]]]]; simpl.
    + split; [by apply one_entry_per_label_invariant|].
      by rewrite check_selected_app.
    + split; [by apply one_entry_per_label_invariant|].
      apply Hlabels, same_labels_without_selection, select_checked_without_selection.
    + split; [by apply one_entry_per_label_invariant|].
      by rewrite foldl_setCheckState.
    + split; [by apply update_cameras_one_entry_per_label|].
      apply Hlabels, update_cameras_labels.
    + done.
  - split; [|done].
    apply (one_entry_per_label_same_texts (panel x)); [done| |done].
    apply setCheckState_texts.
  - destruct (user_selects_frame rows (panel x)) as (Hi & Ht & Hh).
    split; [by apply (one_entry_per_label_same_texts (panel x))|].
    by apply Hlabels, same_labels_without_selection.
  - split; [|by apply He].
    by apply (one_entry_per_label_same_texts (panel x)).
Qed.

Lemma handle_files e x :
  e <> Click "Export" ->
  files (handle get_camera default_export_path getSaveFileName
        selection_order open_succeeds e x) = files x.
Proof.
  intros He. destruct e as [button|i s|rows|a]; simpl; try done.
  destruct (click_cases button x) as [->|(callback & Hin & ->)]; [done|].
  apply buttons_cases in Hin
    as [[_ ->]|[[_ ->]|[[_ ->]|[[_ ->]|[-> _]]]]]; done.
Qed.

Lemma handle_without_selection e x :
  (forall a, e <> HostBecomes a) ->
  without_selection
    (app (panel (handle get_camera default_export_path getSaveFileName
          selection_order open_succeeds e x)))
  = without_selection (app (panel x)).
Proof.
  intros He. destruct e as [button|i s|rows|a]; simpl.
  - destruct (click_cases button x) as [->|(callback & Hin & ->)]; [done|].
    apply buttons_cases in Hin
      as [[_ ->]|[[_ ->]|[[_ ->]|[[_ ->]|[_ ->]]]]]; simpl.
    + by rewrite check_selected_app.
    + apply select_checked_without_selection.
    + by rewrite foldl_setCheckState.
    + apply update_cameras_without_selection.
    + done.
  - done.
  - apply user_selects_frame.
  - by destruct (He a).
Qed.

End PanelAtWork.

Lemma run_cons get_camera default_export_path getSaveFileName selection_order
    open_succeeds e events x :
  run get_camera default_export_path getSaveFileName
        selection_order open_succeeds (e :: events) x
  = run get_camera default_export_path getSaveFileName selection_order open_succeeds events
      (handle get_camera default_export_path getSaveFileName
            selection_order open_succeeds e x).
Proof. reflexivity. Qed.

Lemma distinct_labels_host_of_two : distinct_labels (host_of two_cameras).
Proof.
  intros ls [= <-]. apply NoDup_cons. split.
  - intros [E|E]%elem_of_cons; [discriminate|inversion E].
  - apply NoDup_singleton.
Qed.

(** X16: whatever is clicked, ticked or highlighted, and however the
    project is edited in between, the panel keeps one entry per label as long
    as the cameras of the host carry distinct labels: every row stays the
    entry of its own text and every entry stays a row.  The panel the
    constructor builds starts in that state. *)
Theorem run_keeps_one_entry_per_label
    (get_camera : option Chunk -> string -> option Camera)
    (default_export_path getSaveFileName : string -> string)
    (selection_order : list nat -> list nat) (open_succeeds : string -> bool)
    (events : list Event) (x : World) :
  one_entry_per_label (panel x) ->
  distinct_labels (app (panel x)) ->
  (forall a, HostBecomes a ∈ events -> distinct_labels a) ->
  one_entry_per_label
    (panel (run get_camera default_export_path getSaveFileName
          selection_order open_succeeds events x)) /\
  (forall a w, distinct_labels a -> CameraSelector_init a = (w, Returned) ->
     one_entry_per_label w).
Proof.
  intros Hwf Hd Hev. split.
  - assert (H : one_entry_per_label (panel x) /\ distinct_labels (app (panel x)))
      by done.
    clear Hwf Hd. revert x H.
    induction events as [|e events IH]; intros x H; [by destruct H|].
    rewrite run_cons. apply IH.
    + intros a Ha. apply Hev. by right.
    + apply handle_keeps_one_entry_per_label; [|done].
      intros a ->. apply Hev. by left.
  - intros a w Ha Hrun. unfold CameraSelector_init in Hrun.
    pose proof (update_cameras_one_entry_per_label
                  {| app := a; list_widget := []; items := ∅ |} Ha) as H.
    by rewrite Hrun in H.
Qed.

Lemma run_keeps_one_entry_per_label_witness :
  one_entry_per_label
    (panel (run find_camera (fun _ => "/proj/cameras.csv") (fun _ => "")
              (fun rows => rows) (fun _ => true)
              sample_session {| panel := fresh_selector; files := ∅ |})).
Proof.
  refine (proj1 (run_keeps_one_entry_per_label find_camera
                   (fun _ => "/proj/cameras.csv") (fun _ => "")
                   (fun rows => rows) (fun _ => true)
                   sample_session {| panel := fresh_selector; files := ∅ |}
                   fresh_selector_one_entry_per_label
                   distinct_labels_host_of_two _)).
  intros a Ha. unfold sample_session in Ha.
  apply elem_of_cons in Ha as [[= ->]|Ha].
  - intros ls [= <-]. apply NoDup_cons. split.
    + intros [E|E]%elem_of_cons; [discriminate|inversion E].
    + apply NoDup_singleton.
  - repeat (apply elem_of_cons in Ha as [Ha|Ha]; [discriminate Ha|]). inversion Ha.
Defined.

(** X17: the panel writes files only when Export is clicked: a session
    without a click on Export leaves the file system exactly as it was. *)
Theorem run_writes_files_only_on_export
    (get_camera : option Chunk -> string -> option Camera)
    (default_export_path getSaveFileName : string -> string)
    (selection_order : list nat -> list nat) (open_succeeds : string -> bool)
    (events : list Event) (x : World) :
  Click "Export" ∉ events ->
  files (run get_camera default_export_path getSaveFileName
        selection_order open_succeeds events x) = files x.
Proof.
  revert x. induction events as [|e events IH]; intros x Hno; [done|].
  rewrite run_cons, IH.
  - apply handle_files. intros ->. apply Hno. by left.
  - intros H. apply Hno. by right.
Qed.

Lemma run_writes_files_only_on_export_witness :
  files (run find_camera (fun _ => "/proj/cameras.csv") (fun _ => "/out/cameras.csv")
           (fun rows => rows) (fun _ => true)
           sample_session {| panel := fresh_selector; files := {[ "/f" := "x" ]} |})
  = {[ "/f" := "x" ]}.
Proof.
  assert (Hno : Click "Export" ∉ sample_session).
  { intros Ha. unfold sample_session in Ha.
    repeat (apply elem_of_cons in Ha as [Ha|Ha]; [discriminate Ha|]). inversion Ha. }
  exact (run_writes_files_only_on_export find_camera
           (fun _ => "/proj/cameras.csv") (fun _ => "/out/cameras.csv")
           (fun rows => rows) (fun _ => true)
           sample_session {| panel := fresh_selector; files := {[ "/f" := "x" ]} |} Hno).
Defined.

(** X18: the panel never edits the project beyond selection flags: over a
    session in which the host is not edited from outside, the document, its
    path, the chunk and the labels and photos of its cameras are at the end
    what they were at the start. *)
Theorem run_changes_only_selection_flags
    (get_camera : option Chunk -> string -> option Camera)
    (default_export_path getSaveFileName : string -> string)
    (selection_order : list nat -> list nat) (open_succeeds : string -> bool)
    (events : list Event) (x : World) :
  (forall a, HostBecomes a ∉ events) ->
  without_selection
    (app (panel (run get_camera default_export_path getSaveFileName
          selection_order open_succeeds events x)))
  = without_selection (app (panel x)).
Proof.
  revert x. induction events as [|e events IH]; intros x Hno; [done|].
  rewrite run_cons, IH.
  - apply handle_without_selection. intros a ->. apply (Hno a). by left.
  - intros a H. apply (Hno a). by right.
Qed.

Lemma run_changes_only_selection_flags_witness :
  without_selection
    (app (panel (run find_camera (fun _ => "/proj/cameras.csv") (fun _ => "")
                   (fun rows => rows) (fun _ => true)
                   [Click "Select Checked"; UserSelects [1]; Click "Update Cameras"]
                   {| panel := fresh_selector; files := ∅ |})))
  = without_selection (host_of two_cameras).
Proof.
  assert (Hno : forall a, HostBecomes a ∉
            [Click "Select Checked"; UserSelects [1]; Click "Update Cameras"]).
  { intros a Ha.
    repeat (apply elem_of_cons in Ha as [Ha|Ha]; [discriminate Ha|]). inversion Ha. }
  exact (run_changes_only_selection_flags find_camera
           (fun _ => "/proj/cameras.csv") (fun _ => "")
           (fun rows => rows) (fun _ => true)
           [Click "Select Checked"; UserSelects [1]; Click "Update Cameras"]
           {| panel := fresh_selector; files := ∅ |} Hno).
Defined.
